(** * Stabilization.cpp: a line of nodes that repairs its own primary values

    A shallow embedding of [src/Stabilization.cpp].  The C++ program keeps
    an array [member] of [Node] objects, each with two [int] fields and two
    raw neighbour pointers, and a cursor [node] into that array.  Here

    - a [Node*] that points into [member] is the index of the cell it points
      to, and a null pointer is [None];
    - an [int] is a [Z] in the 32-bit signed range; an addition that leaves
      the range is undefined behaviour in C++ and is a failure of the model;
    - every method of [System] is a computation in a state-and-failure
      monad over the object's fields;
    - [rand()] is an argument: the number it returned. *)

From Stdlib Require Import ZArith Lia.
From stdpp Require Import base option list.

Open Scope Z_scope.

(** ** Failures *)

(** What can go wrong when the C++ program runs: one exception of the
    language and the undefined behaviours the methods can reach. *)
Inductive failure : Type :=
  | BadArrayNewLength   (* new Node[n] with n < 0 *)
  | NullDeref           (* p->field with p == NULL *)
  | OutOfBounds         (* p->field with p outside member[0..SYSTEM_SIZE) *)
  | SignedOverflow      (* int arithmetic outside [INT_MIN, INT_MAX] *)
  | DivByZero           (* rand() % 0 *)
  | NoReturnValue.      (* the end of a bool function reached *)

Inductive result (A : Type) : Type :=
  | OK (a : A)
  | Err (e : failure).
Arguments OK {A} a.
Arguments Err {A} e.

(** ** Machine integers *)

Definition INT_MIN : Z := - 2 ^ 31.
Definition INT_MAX : Z := 2 ^ 31 - 1.

Definition in_int (z : Z) : Prop := INT_MIN <= z <= INT_MAX.
Definition in_intb (z : Z) : bool := (INT_MIN <=? z) && (z <=? INT_MAX).

(** [a + b] on [int]. *)
Definition int_add (a b : Z) : result Z :=
  if in_intb (a + b) then OK (a + b) else Err SignedOverflow.

(** [const int M = 20;] *)
Definition M : Z := 20.

(** ** class Node *)

Record Node : Type := mkNode {
  primary : Z;
  secondary : Z;
  left : option nat;
  right : option nat
}.

(** [Node::Node()] *)
Definition Node_new : Node :=
  {| primary := 0; secondary := 5; left := None; right := None |}.

Definition set_primary (v : Z) (n : Node) : Node :=
  {| primary := v; secondary := secondary n; left := left n; right := right n |}.
Definition set_secondary (v : Z) (n : Node) : Node :=
  {| primary := primary n; secondary := v; left := left n; right := right n |}.
Definition set_left (p : option nat) (n : Node) : Node :=
  {| primary := primary n; secondary := secondary n; left := p; right := right n |}.
Definition set_right (p : option nat) (n : Node) : Node :=
  {| primary := primary n; secondary := secondary n; left := left n; right := p |}.

(** [bool Node::Equal(const Node other)] *)
Definition Equal (this other : Node) : bool :=
  if primary this =? primary other then true else false.

(** [void Node::Update()] *)
Definition Update (this : Node) : Node :=
  if primary this =? 0 then set_primary 1 this else set_primary 0 this.

(** ** class System *)

(** [SYSTEM_SIZE] is assigned once, in the constructor, together with
    [member = new Node[SYSTEM_SIZE]]; the list carries that length. *)
Record System : Type := mkSystem {
  member : list Node;
  node : nat
}.

Definition SYSTEM_SIZE (s : System) : Z := Z.of_nat (length (member s)).

Definition primaries (s : System) : list Z := primary <$> member s.
Definition secondaries (s : System) : list Z := secondary <$> member s.

(** *** The monad of the methods *)

Definition Method (A : Type) : Type := System -> result (A * System).

Definition ret {A} (a : A) : Method A := fun s => OK (a, s).
Definition fail {A} (e : failure) : Method A := fun _ => Err e.
Definition bind {A B} (m : Method A) (k : A -> Method B) : Method B :=
  fun s => match m s with
           | OK (a, s') => k a s'
           | Err e => Err e
           end.
Definition lift {A} (r : result A) : Method A :=
  fun s => match r with OK a => OK (a, s) | Err e => Err e end.

Notation "'let*' x ':=' m 'in' k" := (bind m (fun x => k))
  (at level 10, x name, m at level 100, k at level 200).
Notation "m '>>' k" := (bind m (fun _ => k))
  (at level 100, k at level 200, right associativity).

(** [a && b] and [a || b] evaluate [b] only when [a] does not decide. *)
Definition and_then (a b : Method bool) : Method bool :=
  let* x := a in if x then b else ret false.
Definition or_else (a b : Method bool) : Method bool :=
  let* x := a in if x then ret true else b.

(** *** Memory *)

(** The cursor [node]. *)
Definition this_node : Method nat := fun s => OK (node s, s).

(** [*p] for [p] a pointer into [member]. *)
Definition load (p : nat) : Method Node :=
  fun s => match member s !! p with
           | Some n => OK (n, s)
           | None => Err OutOfBounds
           end.

(** [*p = n]. *)
Definition store (p : nat) (n : Node) : Method unit :=
  fun s => match member s !! p with
           | Some _ => OK (tt, {| member := <[p := n]> (member s); node := node s |})
           | None => Err OutOfBounds
           end.

(** [*q] for a neighbour pointer [q], which may be null. *)
Definition load_ptr (q : option nat) : Method Node :=
  match q with
  | Some p => load p
  | None => fail NullDeref
  end.

(** [node->Update()] *)
Definition node_Update : Method unit :=
  let* p := this_node in
  let* n := load p in
  store p (Update n).

(** *** [System::System(int _SYSTEM_SIZE)] *)

(** One turn of the constructor's loop. *)
Definition link (size i : nat) (m : list Node) : list Node :=
  if (i =? 0)%nat then
    alter (set_right (Some (i + 1)%nat)) i m
  else if (i =? size - 1)%nat then
    alter (set_left (Some (i - 1)%nat)) i m
  else
    alter (fun n => set_right (Some (i + 1)%nat) (set_left (Some (i - 1)%nat) n)) i m.

Definition System_new (_SYSTEM_SIZE : Z) : result System :=
  if _SYSTEM_SIZE <? 0 then Err BadArrayNewLength
  else
    let size := Z.to_nat _SYSTEM_SIZE in
    OK {| member := fold_left (fun m i => link size i m) (seq 0 size)
                              (replicate size Node_new);
          node := 0%nat |}.

(** *** [void SelectNode()], with [r] the value of [rand()] *)
Definition SelectNode (r : Z) : Method unit :=
  fun s =>
    if SYSTEM_SIZE s =? 0 then Err DivByZero
    else
      let i := Z.rem r (SYSTEM_SIZE s) in
      if i <? 0 then Err OutOfBounds
      else OK (tt, {| member := member s; node := Z.to_nat i |}).

(** *** [void TransientFault()] *)
Definition TransientFault (r : Z) : Method unit :=
  SelectNode r >> node_Update.

(** *** [bool LegalConfig()] *)
Fixpoint LegalConfig_from (m : list Node) (idx : list nat) : result bool :=
  match idx with
  | [] => OK true
  | i :: rest =>
      match m !! 0%nat, m !! i with
      | Some first, Some other =>
          if negb (Equal first other) then OK false
          else LegalConfig_from m rest
      | _, _ => Err OutOfBounds
      end
  end.

Definition LegalConfig : Method bool :=
  fun s => lift (LegalConfig_from (member s) (seq 1 (length (member s) - 1))) s.

(** *** [bool CheckUnequal()] *)
Definition differs (n : Node) (q : option nat) : Method bool :=
  let* o := load_ptr q in ret (negb (primary n =? primary o)).
Definition agrees (n : Node) (q : option nat) : Method bool :=
  let* o := load_ptr q in ret (primary n =? primary o).

Definition is_null (q : option nat) : bool :=
  match q with None => true | Some _ => false end.

Definition CheckUnequal : Method bool :=
  let* p := this_node in
  let* n := load p in
  if negb (is_null (left n)) && negb (is_null (right n)) then
    let* c := and_then (differs n (left n)) (differs n (right n)) in
    if c then node_Update >> ret true
    else
      let* c := and_then (agrees n (left n)) (agrees n (right n)) in
      if c then ret true else ret false
  else if is_null (left n) then
    let* c := differs n (right n) in
    if c then node_Update >> ret true
    else
      let* c := agrees n (right n) in
      if c then ret true else ret false
  else if is_null (right n) then
    let* c := differs n (left n) in
    if c then node_Update >> ret true
    else
      let* c := agrees n (left n) in
      if c then ret true else ret false
  else fail NoReturnValue.

(** *** [bool isLeader()] *)
Definition below (n : Node) (q : option nat) : Method bool :=
  let* o := load_ptr q in ret (secondary n <? secondary o).

Definition isLeader : Method bool :=
  let* p := this_node in
  let* n := load p in
  if is_null (left n) then
    let* c := below n (right n) in
    if c then ret false else ret true
  else if is_null (right n) then
    let* c := below n (left n) in
    if c then ret false else ret true
  else
    let* c := or_else (below n (left n)) (below n (right n)) in
    if c then ret false else ret true.

(** *** [int Max()] *)
Definition Max : Method Z :=
  let* p := this_node in
  let* n := load p in
  if is_null (left n) then
    let* r := load_ptr (right n) in ret (secondary r)
  else if is_null (right n) then
    let* l := load_ptr (left n) in ret (secondary l)
  else
    let* r := load_ptr (right n) in
    let* l := load_ptr (left n) in
    if secondary r >? secondary l then ret (secondary r)
    else ret (secondary l).

(** *** [void CheckConditions()] *)
Definition CheckConditions : Method unit :=
  let* leader := isLeader in
  if leader then
    node_Update >>
    let* mx := Max in
    let* inc := lift (int_add mx M) in
    let* p := this_node in
    let* n := load p in
    let* v := lift (int_add (secondary n) inc) in
    store p (set_secondary v n)
  else
    let* p := this_node in
    let* n := load p in
    let* v := lift (int_add (secondary n) 1) in
    store p (set_secondary v n).

(** *** The body of the loop of [Stabilize()], after [SelectNode()] *)
Definition apply_rules : Method unit :=
  let* settled := CheckUnequal in
  if negb settled then CheckConditions else ret tt.

(** *** [void Stabilize()]

    The loop draws one number per turn.  [rands] are the numbers [rand()]
    returns, in order; the result is the number of turns taken when the
    loop ends, and [None] when the draws run out first. *)
Fixpoint Stabilize (rands : list Z) : Method (option nat) :=
  let* legal := LegalConfig in
  if negb legal then
    match rands with
    | [] => ret None
    | r :: rest =>
        SelectNode r >>
        apply_rules >>
        let* turns := Stabilize rest in
        ret (S <$> turns)
    end
  else ret (Some 0%nat).

(** *** [main]: faults first, then the loop *)
Fixpoint TransientFaults (rands : list Z) : Method unit :=
  match rands with
  | [] => ret tt
  | r :: rest => TransientFault r >> TransientFaults rest
  end.

(** ** Neighbourhoods *)

(** The cursor is on [n], a node with both neighbours, [l] on its left and
    [r] on its right. *)
Record interior_of (s : System) (n l r : Node) : Prop := {
  interior_self : member s !! node s = Some n;
  interior_left : exists li, left n = Some li /\ member s !! li = Some l;
  interior_right : exists ri, right n = Some ri /\ member s !! ri = Some r
}.

(** The cursor is on [n], a node with exactly one neighbour, [o]. *)
Definition endpoint_of (s : System) (n o : Node) : Prop :=
  member s !! node s = Some n /\
  ((left n = None /\ exists ri, right n = Some ri /\ member s !! ri = Some o) \/
   (right n = None /\ exists li, left n = Some li /\ member s !! li = Some o)).

(** The cursor is on [n], a node with no neighbour. *)
Definition isolated_of (s : System) (n : Node) : Prop :=
  member s !! node s = Some n /\ left n = None /\ right n = None.

(** Exactly one of the two neighbours has the primary value of [n]. *)
Definition mixed (n l r : Node) : Prop :=
  (primary n = primary l /\ primary n <> primary r) \/
  (primary n <> primary l /\ primary n = primary r).

(** The local leader of the header comment: no neighbour has a greater
    secondary value. *)
Definition local_leader (n l r : Node) : Prop :=
  secondary l <= secondary n /\ secondary r <= secondary n.

(** The cursor moved nowhere and cell [node s] now holds [n']. *)
Definition with_node (s : System) (n' : Node) : System :=
  {| member := <[node s := n']> (member s); node := node s |}.

(** Every secondary value is a value of type [int]. *)
Definition ints (s : System) : Prop := Forall in_int (secondaries s).

(** ** Runs *)

(** What a run of [main] is made of: a fault, a turn of the loop of
    [Stabilize] on the node that [rand()] picks, a convergence check, and
    the loop itself. *)
Inductive operation : Type :=
  | Fault (r : Z)
  | Turn (r : Z)
  | Legal
  | Loop (rands : list Z).

Definition perform (o : operation) : Method unit :=
  match o with
  | Fault r => TransientFault r
  | Turn r => SelectNode r >> apply_rules
  | Legal => LegalConfig >> ret tt
  | Loop rands => Stabilize rands >> ret tt
  end.

Fixpoint perform_all (os : list operation) : Method unit :=
  match os with
  | [] => ret tt
  | o :: rest => perform o >> perform_all rest
  end.



(** A method that leaves the state as it found it. *)
Definition readonly {A} (m : Method A) : Prop :=
  forall s a s', m s = OK (a, s') -> s' = s.

(** A method that leaves field [f] of every node as it found it. *)
Definition keeps {X A} (f : Node -> X) (m : Method A) : Prop :=
  forall s a s', m s = OK (a, s') -> f <$> member s' = f <$> member s.


(** ** Wiring *)

(** What the constructor's loop does to node [i]. *)
Definition wire (size i : nat) (n : Node) : Node :=
  if (i =? 0)%nat then set_right (Some (i + 1)%nat) n
  else if (i =? size - 1)%nat then set_left (Some (i - 1)%nat) n
  else set_right (Some (i + 1)%nat) (set_left (Some (i - 1)%nat) n).

(** Every node has the neighbour pointers the constructor gave it. *)
Definition wired (s : System) : Prop :=
  forall i n, member s !! i = Some n ->
    left n = left (wire (length (member s)) i Node_new)
    /\ right n = right (wire (length (member s)) i Node_new).

(** A secondary value that can still take part in a leader's sum. *)
Definition headroom (v : Z) : Prop := 0 <= v /\ 2 * v + M <= INT_MAX.

(** ** States of the examples *)

(** A line of four nodes as the constructor wires it, with the given
    primary and secondary values and the cursor on node [cursor]. *)
Definition line4 (p0 p1 p2 p3 c0 c1 c2 c3 : Z) (cursor : nat) : System :=
  {| member := [ mkNode p0 c0 None (Some 1%nat);
                 mkNode p1 c1 (Some 0%nat) (Some 2%nat);
                 mkNode p2 c2 (Some 1%nat) (Some 3%nat);
                 mkNode p3 c3 (Some 2%nat) None ];
     node := cursor |}.

(** A line of three nodes, likewise. *)
Definition line3 (p0 p1 p2 c0 c1 c2 : Z) (cursor : nat) : System :=
  {| member := [ mkNode p0 c0 None (Some 1%nat);
                 mkNode p1 c1 (Some 0%nat) (Some 2%nat);
                 mkNode p2 c2 (Some 1%nat) None ];
     node := cursor |}.

(** A line of two nodes, likewise. *)
Definition line2 (p0 p1 c0 c1 : Z) (cursor : nat) : System :=
  {| member := [ mkNode p0 c0 None (Some 1%nat);
                 mkNode p1 c1 (Some 0%nat) None ];
     node := cursor |}.

(** ** Further invariants *)

(** The primary value of [n] is 0 or 1. *)
Definition bit (n : Node) : Prop := primary n = 0 \/ primary n = 1.

(** Every primary value is 0 or 1. *)
Definition binary (s : System) : Prop :=
  Forall (fun p => p = 0 \/ p = 1) (primaries s).

(** All primary values are equal: the legal configuration of the header
    comment. *)
Definition legal (s : System) : Prop :=
  forall i j x y, primaries s !! i = Some x -> primaries s !! j = Some y -> x = y.

(** A method that keeps property [P] of every node. *)
Definition holds {A} (P : Node -> Prop) (m : Method A) : Prop :=
  forall s a s', Forall P (member s) -> m s = OK (a, s') -> Forall P (member s').

(** A method that writes no cell but the one under the cursor and leaves
    the cursor where it is. *)
Definition confined {A} (m : Method A) : Prop :=
  forall s a s', m s = OK (a, s') ->
    node s' = node s
    /\ length (member s') = length (member s)
    /\ forall j, j <> node s -> member s' !! j = member s !! j.

(** ** [void Print()] and [main] *)

(** The loop of [System::Print]: print the node under the local cursor
    [cur] and follow its right pointer, until the pointer is null.  The
    output is the list of the primary values printed.  The loop has no
    bound of its own; [fuel] bounds the number of nodes visited, and the
    answer is [None] when it runs out. *)
Fixpoint Print_from (fuel : nat) (cur : option nat) (m : list Node)
  : result (option (list Z)) :=
  match cur with
  | None => OK (Some [])
  | Some p =>
      match fuel with
      | O => OK None
      | S fuel' =>
          match m !! p with
          | None => Err OutOfBounds
          | Some n =>
              match Print_from fuel' (right n) m with
              | OK (Some out) => OK (Some (primary n :: out))
              | OK None => OK None
              | Err e => Err e
              end
          end
      end
  end.

(** [void System::Print()]: start at [&member[0]], walk, and put the
    cursor back on [&member[0]]. *)
Definition Print (fuel : nat) : Method (option (list Z)) :=
  fun s =>
    match Print_from fuel (Some 0%nat) (member s) with
    | OK out => OK (out, {| member := member s; node := 0%nat |})
    | Err e => Err e
    end.

(** The first loop of [main]: one fault and one printed line per draw. *)
Fixpoint faults_loop (fuel : nat) (draws : list Z)
  : Method (option (list (list Z))) :=
  match draws with
  | [] => ret (Some [])
  | r :: rest =>
      TransientFault r >>
      let* line := Print fuel in
      match line with
      | None => ret None
      | Some l =>
          let* more := faults_loop fuel rest in
          ret (cons l <$> more)
      end
  end.

(** [main], with [size] the system size read from the input, one entry of
    [fault_draws] per simulated fault and [draws] the numbers [rand()]
    returns during [Stabilize].  The result holds the lines printed after
    the faults, the number of turns of the loop and the last line printed;
    it is [None] when the draws or the fuel run out before the end. *)
Definition main (fuel : nat) (size : Z) (fault_draws draws : list Z)
  : result (option (list (list Z) * nat * list Z)) :=
  match System_new size with
  | Err e => Err e
  | OK graph =>
      let run : Method (option (list (list Z) * nat * list Z)) :=
        let* status := faults_loop fuel fault_draws in
        match status with
        | None => ret None
        | Some lines =>
            let* turns := Stabilize draws in
            match turns with
            | None => ret None
            | Some k =>
                let* last := Print fuel in
                match last with
                | None => ret None
                | Some l => ret (Some (lines, k, l))
                end
            end
        end in
      match run graph with
      | OK (out, _) => OK out
      | Err e => Err e
      end
  end.

(** ** Long runs and the end of the [int] range *)



(** ** Running the methods *)

(** Equations that run a method one step on a known state. *)
Lemma bind_OK {A B} (m : Method A) (k : A -> Method B) s a s1 :
  m s = OK (a, s1) -> bind m k s = k a s1.
Proof. intros H. unfold bind. now rewrite H. Qed.

Lemma bind_inv {A B} (m : Method A) (k : A -> Method B) s r :
  bind m k s = OK r -> exists a s1, m s = OK (a, s1) /\ k a s1 = OK r.
Proof.
  unfold bind. destruct (m s) as [[a s1]|e]; [|discriminate].
  intros H. now exists a, s1.
Qed.

Lemma load_OK p s n : member s !! p = Some n -> load p s = OK (n, s).
Proof. intros H. unfold load. now rewrite H. Qed.

Lemma load_ptr_OK p s n :
  member s !! p = Some n -> load_ptr (Some p) s = OK (n, s).
Proof. apply load_OK. Qed.

Lemma store_OK p s n0 n :
  member s !! p = Some n0 ->
  store p n s = OK (tt, {| member := <[p := n]> (member s); node := node s |}).
Proof. intros H. unfold store. now rewrite H. Qed.

Lemma node_Update_OK s n :
  member s !! node s = Some n ->
  node_Update s
  = OK (tt, {| member := <[node s := Update n]> (member s); node := node s |}).
Proof.
  intros H. unfold node_Update.
  rewrite (bind_OK this_node _ s (node s) s) by reflexivity.
  rewrite (bind_OK (load (node s)) _ s n s) by now apply load_OK.
  now apply store_OK with n.
Qed.

(** [Update] changes the primary value and nothing else. *)
Lemma Update_secondary n : secondary (Update n) = secondary n.
Proof. unfold Update. now destruct (primary n =? 0). Qed.

Lemma Update_left n : left (Update n) = left n.
Proof. unfold Update. now destruct (primary n =? 0). Qed.

Lemma Update_right n : right (Update n) = right n.
Proof. unfold Update. now destruct (primary n =? 0). Qed.

Lemma Update_primary n :
  primary (Update n) = if primary n =? 0 then 1 else 0.
Proof. unfold Update. now destruct (primary n =? 0). Qed.

Lemma Update_flips n : primary (Update n) <> primary n.
Proof.
  rewrite Update_primary. destruct (primary n =? 0) eqn:E.
  - apply Z.eqb_eq in E. lia.
  - apply Z.eqb_neq in E. lia.
Qed.

(** ** The convergence check *)

Lemma Equal_true a b : Equal a b = true <-> primary a = primary b.
Proof.
  unfold Equal. destruct (primary a =? primary b) eqn:E.
  - apply Z.eqb_eq in E. tauto.
  - apply Z.eqb_neq in E. split; [discriminate | tauto].
Qed.

(** The loop of [LegalConfig], over indices inside the array: it answers,
    and says whether all the cells it visits agree with cell 0. *)
Lemma LegalConfig_from_spec (m : list Node) (first : Node) (idx : list nat) :
  m !! 0%nat = Some first ->
  Forall (fun i => (i < length m)%nat) idx ->
  exists b, LegalConfig_from m idx = OK b /\
    (b = true <->
     forall i, i ∈ idx -> forall x, m !! i = Some x -> primary x = primary first).
Proof.
  intros H0. induction idx as [|i rest IH]; intros Hin.
  - exists true. split; [reflexivity|]. split; [|reflexivity].
    intros _ i Hi. now apply elem_of_nil in Hi.
  - apply Forall_cons in Hin as [Hi Hrest].
    destruct (lookup_lt_is_Some_2 m i Hi) as [x Hx].
    simpl. rewrite H0, Hx.
    destruct (Equal first x) eqn:E; simpl.
    + destruct (IH Hrest) as (b & Hb & Hiff). exists b. split; [exact Hb|].
      rewrite Hiff. apply Equal_true in E. split.
      * intros Hall j Hj y Hy. apply elem_of_cons in Hj as [->|Hj].
        -- rewrite Hx in Hy. injection Hy as <-. now symmetry.
        -- now apply (Hall j Hj).
      * intros Hall j Hj. apply Hall. now apply elem_of_cons; right.
    + exists false. split; [reflexivity|]. split; [discriminate|].
      intros Hall. exfalso.
      assert (primary x = primary first) as Hp.
      { apply (Hall i); [apply elem_of_cons; now left | exact Hx]. }
      assert (Equal first x = true) by (apply Equal_true; now symmetry).
      congruence.
Qed.

(** The verdict of [LegalConfig] as a function of the primary values. *)
Lemma LegalConfig_verdict s :
  exists b, LegalConfig s = OK (b, s) /\
    (b = true <->
     forall i v, primaries s !! i = Some v -> primaries s !! 0%nat = Some v).
Proof.
  unfold LegalConfig, primaries.
  destruct (member s) as [|first rest] eqn:Hm.
  - exists true. simpl. split; [reflexivity|]. split; [|reflexivity].
    intros _ i v H. now rewrite lookup_nil in H.
  - destruct (LegalConfig_from_spec (first :: rest) first
                (seq 1 (length (first :: rest) - 1))) as (b & Hb & Hiff).
    + reflexivity.
    + apply Forall_forall. intros i Hi. apply elem_of_seq in Hi. simpl in *. lia.
    + exists b. rewrite Hb. split; [reflexivity|]. rewrite Hiff. split.
      * intros Hall i v Hv. rewrite list_lookup_fmap in Hv.
        destruct ((first :: rest) !! i) as [x|] eqn:Hx; [|discriminate].
        injection Hv as <-. simpl. f_equal.
        destruct i as [|i]; [simpl in Hx; congruence|].
        symmetry. apply (Hall (S i)); [|exact Hx].
        apply elem_of_seq. apply lookup_lt_Some in Hx. simpl in *. lia.
      * intros Hall i _ x Hx.
        specialize (Hall i (primary x)). rewrite list_lookup_fmap, Hx in Hall.
        specialize (Hall eq_refl). simpl in Hall. congruence.
Qed.

(** A system of one node is legal. *)
Lemma LegalConfig_single s :
  exists b, LegalConfig s = OK (b, s) /\ (SYSTEM_SIZE s = 1 -> b = true).
Proof.
  destruct (LegalConfig_verdict s) as (b & Hrun & Hiff).
  exists b. split; [exact Hrun|].
  intros Hsize. apply Hiff. intros i v Hv.
  assert (length (primaries s) = 1%nat) as Hlen.
  { unfold primaries. rewrite length_fmap. unfold SYSTEM_SIZE in Hsize. lia. }
  apply lookup_lt_Some in Hv as Hlt.
  assert (i = 0%nat) as -> by lia. exact Hv.
Qed.

(** C5. For every state, [LegalConfig] answers [true] exactly when every
    node's primary value is that of node 0 (so it answers [true] for a
    system of one node); the answer is the same in any state with the same
    primary values, whatever the secondary values are; and the state the
    method leaves is the state it was called in. *)
Theorem LegalConfig_iff_all_equal_first (s : System) :
  exists b, LegalConfig s = OK (b, s)
    /\ (b = true <->
        forall i v, primaries s !! i = Some v -> primaries s !! 0%nat = Some v)
    /\ (SYSTEM_SIZE s = 1 -> b = true)
    /\ (forall s2, primaries s2 = primaries s -> LegalConfig s2 = OK (b, s2)).
Proof.
  destruct (LegalConfig_verdict s) as (b & Hrun & Hiff).
  exists b. split; [exact Hrun|]. split; [exact Hiff|]. split.
  - destruct (LegalConfig_single s) as (b' & Hrun' & Hone).
    rewrite Hrun in Hrun'. injection Hrun' as <-. exact Hone.
  - intros s2 Heq. destruct (LegalConfig_verdict s2) as (b2 & Hrun2 & Hiff2).
    rewrite Heq in Hiff2. rewrite Hrun2. do 2 f_equal.
    destruct b, b2; try reflexivity.
    + apply Hiff2. now apply Hiff.
    + symmetry. apply Hiff. now apply Hiff2.
Qed.

(** ** Fault injection *)

Lemma insert_Update_secondaries (m : list Node) p n :
  m !! p = Some n -> secondary <$> <[p := Update n]> m = secondary <$> m.
Proof.
  intros H. rewrite list_fmap_insert, Update_secondary.
  apply list_insert_id. now rewrite list_lookup_fmap, H.
Qed.

Lemma SelectNode_OK r s :
  0 <= r -> 0 < SYSTEM_SIZE s ->
  SelectNode r s
  = OK (tt, {| member := member s; node := Z.to_nat (Z.rem r (SYSTEM_SIZE s)) |})
  /\ (Z.to_nat (Z.rem r (SYSTEM_SIZE s)) < length (member s))%nat.
Proof.
  intros Hr Hn. unfold SelectNode.
  destruct (SYSTEM_SIZE s =? 0) eqn:E; [apply Z.eqb_eq in E; lia|].
  pose proof (Z.rem_bound_pos r (SYSTEM_SIZE s) Hr Hn) as Hb.
  destruct (Z.rem r (SYSTEM_SIZE s) <? 0) eqn:E2; [apply Z.ltb_lt in E2; lia|].
  split; [reflexivity|]. unfold SYSTEM_SIZE in *. lia.
Qed.

(** C8. [TransientFault], when [rand()] returns [r], moves the cursor to
    node [r % SYSTEM_SIZE] and flips that node's primary value; every
    secondary value, the node's neighbour pointers and all other nodes are
    as before. *)
Theorem TransientFault_flips_selected_primary_only (s : System) (r : Z) :
  0 <= r -> 0 < SYSTEM_SIZE s ->
  let i := Z.to_nat (Z.rem r (SYSTEM_SIZE s)) in
  exists n s',
    member s !! i = Some n
    /\ TransientFault r s = OK (tt, s')
    /\ node s' = i
    /\ primaries s' !! i = Some (if primary n =? 0 then 1 else 0)
    /\ primaries s' !! i <> primaries s !! i
    /\ secondaries s' = secondaries s
    /\ left <$> member s' = left <$> member s
    /\ right <$> member s' = right <$> member s
    /\ (forall j, j <> i -> member s' !! j = member s !! j).
Proof.
  intros Hr Hn i. destruct (SelectNode_OK r s Hr Hn) as [Hsel Hlt].
  fold i in Hsel, Hlt.
  destruct (lookup_lt_is_Some_2 (member s) i Hlt) as [n Hn'].
  exists n, {| member := <[i := Update n]> (member s); node := i |}.
  split; [exact Hn'|]. split.
  { unfold TransientFault. rewrite (bind_OK _ _ _ _ _ Hsel).
    now rewrite (node_Update_OK _ n). }
  split; [reflexivity|]. unfold primaries, secondaries. simpl.
  rewrite !list_lookup_fmap, list_lookup_insert_eq, Hn' by exact Hlt.
  simpl. rewrite Update_primary. split; [reflexivity|]. split.
  { intros H. injection H as H. pose proof (Update_flips n) as Hf.
    rewrite Update_primary in Hf. congruence. }
  split; [now apply insert_Update_secondaries|].
  split.
  { rewrite list_fmap_insert, Update_left. apply list_insert_id.
    now rewrite list_lookup_fmap, Hn'. }
  split.
  { rewrite list_fmap_insert, Update_right. apply list_insert_id.
    now rewrite list_lookup_fmap, Hn'. }
  intros j Hj. apply list_lookup_insert_ne. congruence.
Qed.

(** ** The rule engine, run on a known neighbourhood *)

Lemma this_node_OK s : this_node s = OK (node s, s).
Proof. reflexivity. Qed.

Lemma differs_OK n q o s :
  member s !! q = Some o ->
  differs n (Some q) s = OK (negb (primary n =? primary o), s).
Proof.
  intros H. unfold differs. now rewrite (bind_OK _ _ _ _ _ (load_ptr_OK _ _ _ H)).
Qed.

Lemma agrees_OK n q o s :
  member s !! q = Some o ->
  agrees n (Some q) s = OK (primary n =? primary o, s).
Proof.
  intros H. unfold agrees. now rewrite (bind_OK _ _ _ _ _ (load_ptr_OK _ _ _ H)).
Qed.

Lemma below_OK n q o s :
  member s !! q = Some o ->
  below n (Some q) s = OK (secondary n <? secondary o, s).
Proof.
  intros H. unfold below. now rewrite (bind_OK _ _ _ _ _ (load_ptr_OK _ _ _ H)).
Qed.

(** Enter a method whose first two steps read the cursor and its node. *)
Ltac enter Hn :=
  rewrite (bind_OK _ _ _ _ _ (this_node_OK _));
  rewrite (bind_OK _ _ _ _ _ (load_OK _ _ _ Hn)).

Lemma node_Update_with s n :
  member s !! node s = Some n -> node_Update s = OK (tt, with_node s (Update n)).
Proof. apply node_Update_OK. Qed.

(** Both operands only read the state here, so the short cut shows in
    the steps taken and not in the answer. *)
Lemma and_then_OK (a b : Method bool) s x y :
  a s = OK (x, s) -> b s = OK (y, s) -> and_then a b s = OK (x && y, s).
Proof.
  intros Ha Hb. unfold and_then. rewrite (bind_OK _ _ _ _ _ Ha).
  now destruct x.
Qed.

Lemma or_else_OK (a b : Method bool) s x y :
  a s = OK (x, s) -> b s = OK (y, s) -> or_else a b s = OK (x || y, s).
Proof.
  intros Ha Hb. unfold or_else. rewrite (bind_OK _ _ _ _ _ Ha).
  now destruct x.
Qed.

Lemma CheckUnequal_interior s n l r :
  interior_of s n l r ->
  CheckUnequal s =
    if negb (primary n =? primary l) && negb (primary n =? primary r)
    then OK (true, with_node s (Update n))
    else if (primary n =? primary l) && (primary n =? primary r)
    then OK (true, s)
    else OK (false, s).
Proof.
  intros [Hn (li & Hl & Hli) (ri & Hr & Hri)].
  unfold CheckUnequal. enter Hn. rewrite Hl, Hr. cbn [is_null negb andb].
  rewrite (bind_OK _ _ _ _ _
             (and_then_OK _ _ _ _ _ (differs_OK n li l s Hli) (differs_OK n ri r s Hri))).
  destruct (negb (primary n =? primary l) && negb (primary n =? primary r)).
  - now rewrite (bind_OK _ _ _ _ _ (node_Update_with s n Hn)).
  - rewrite (bind_OK _ _ _ _ _
               (and_then_OK _ _ _ _ _ (agrees_OK n li l s Hli) (agrees_OK n ri r s Hri))).
    now destruct ((primary n =? primary l) && (primary n =? primary r)).
Qed.

Lemma CheckUnequal_endpoint s n o :
  endpoint_of s n o ->
  CheckUnequal s =
    if negb (primary n =? primary o) then OK (true, with_node s (Update n))
    else if primary n =? primary o then OK (true, s)
    else OK (false, s).
Proof.
  intros [Hn [(Hl & ri & Hr & Hri) | (Hr & li & Hl & Hli)]];
    unfold CheckUnequal; enter Hn; rewrite Hl, Hr; cbn [is_null negb andb].
  - rewrite (bind_OK _ _ _ _ _ (differs_OK n ri o s Hri)).
    destruct (negb (primary n =? primary o)).
    + now rewrite (bind_OK _ _ _ _ _ (node_Update_with s n Hn)).
    + rewrite (bind_OK _ _ _ _ _ (agrees_OK n ri o s Hri)).
      now destruct (primary n =? primary o).
  - rewrite (bind_OK _ _ _ _ _ (differs_OK n li o s Hli)).
    destruct (negb (primary n =? primary o)).
    + now rewrite (bind_OK _ _ _ _ _ (node_Update_with s n Hn)).
    + rewrite (bind_OK _ _ _ _ _ (agrees_OK n li o s Hli)).
      now destruct (primary n =? primary o).
Qed.

Lemma CheckUnequal_isolated s n :
  isolated_of s n -> CheckUnequal s = Err NullDeref.
Proof.
  intros (Hn & Hl & Hr). unfold CheckUnequal. enter Hn.
  rewrite Hl, Hr. reflexivity.
Qed.

Lemma isLeader_interior s n l r :
  interior_of s n l r ->
  isLeader s
  = OK (negb ((secondary n <? secondary l) || (secondary n <? secondary r)), s).
Proof.
  intros [Hn (li & Hl & Hli) (ri & Hr & Hri)].
  unfold isLeader. enter Hn. rewrite Hl, Hr. cbn [is_null].
  rewrite (bind_OK _ _ _ _ _
             (or_else_OK _ _ _ _ _ (below_OK n li l s Hli) (below_OK n ri r s Hri))).
  now destruct ((secondary n <? secondary l) || (secondary n <? secondary r)).
Qed.

Lemma Max_interior s n l r :
  interior_of s n l r -> Max s = OK (Z.max (secondary l) (secondary r), s).
Proof.
  intros [Hn (li & Hl & Hli) (ri & Hr & Hri)].
  unfold Max. enter Hn. rewrite Hl, Hr. cbn [is_null].
  rewrite (bind_OK _ _ _ _ _ (load_ptr_OK _ _ _ Hri)).
  rewrite (bind_OK _ _ _ _ _ (load_ptr_OK _ _ _ Hli)).
  rewrite Z.gtb_ltb. unfold ret.
  destruct (secondary l <? secondary r) eqn:E; do 2 f_equal.
  - apply Z.ltb_lt in E. lia.
  - apply Z.ltb_ge in E. lia.
Qed.

Lemma int_add_OK a b : in_int (a + b) -> int_add a b = OK (a + b).
Proof.
  unfold in_int, int_add, in_intb. intros [H1 H2].
  apply Z.leb_le in H1, H2. now rewrite H1, H2.
Qed.

Lemma lift_OK {A} (a : A) s : lift (OK a) s = OK (a, s).
Proof. reflexivity. Qed.

(** Flipping the primary value of the node under the cursor keeps the
    shape of its neighbourhood and every secondary value in it. *)
Lemma interior_after_Update s n l r :
  interior_of s n l r ->
  exists l' r',
    interior_of (with_node s (Update n)) (Update n) l' r'
    /\ secondary l' = secondary l /\ secondary r' = secondary r.
Proof.
  intros [Hn (li & Hl & Hli) (ri & Hr & Hri)].
  assert (forall q o, member s !! q = Some o ->
            exists o', <[node s := Update n]> (member s) !! q = Some o'
                       /\ secondary o' = secondary o) as Hq.
  { intros q o Ho. destruct (decide (node s = q)) as [<-|Hne].
    - exists (Update n). rewrite list_lookup_insert_eq
        by (now apply lookup_lt_Some in Hn).
      split; [reflexivity|]. rewrite Update_secondary. congruence.
    - exists o. now rewrite list_lookup_insert_ne. }
  destruct (Hq li l Hli) as (l' & Hl' & Hsl).
  destruct (Hq ri r Hri) as (r' & Hr' & Hsr).
  exists l', r'. split; [|now split].
  split; simpl.
  - apply list_lookup_insert_eq. now apply lookup_lt_Some in Hn.
  - exists li. now rewrite Update_left.
  - exists ri. now rewrite Update_right.
Qed.

Lemma store_with s n0 n :
  member s !! node s = Some n0 -> store (node s) n s = OK (tt, with_node s n).
Proof. apply store_OK. Qed.

Lemma with_node_twice s a b : with_node (with_node s a) b = with_node s b.
Proof. unfold with_node. simpl. now rewrite list_insert_insert_eq. Qed.

Lemma CheckUnequal_mixed s n l r :
  interior_of s n l r -> mixed n l r -> CheckUnequal s = OK (false, s).
Proof.
  intros Hi Hm. rewrite (CheckUnequal_interior s n l r Hi).
  destruct Hm as [[He Hne] | [Hne He]];
    apply Z.eqb_eq in He; apply Z.eqb_neq in Hne; now rewrite He, Hne.
Qed.

(** Rule (2b): the follower waits and counts. *)
Lemma CheckConditions_follower s n l r :
  interior_of s n l r ->
  ~ local_leader n l r ->
  in_int (secondary n + 1) ->
  CheckConditions s = OK (tt, with_node s (set_secondary (secondary n + 1) n)).
Proof.
  intros Hi Hnl Hint. unfold CheckConditions.
  rewrite (bind_OK _ _ _ _ _ (isLeader_interior s n l r Hi)).
  assert ((secondary n <? secondary l) || (secondary n <? secondary r) = true) as ->.
  { apply orb_true_iff. rewrite !Z.ltb_lt. unfold local_leader in Hnl. lia. }
  cbn [negb]. destruct Hi as [Hn _ _]. enter Hn.
  rewrite (int_add_OK _ _ Hint).
  rewrite (bind_OK _ _ _ _ _ (lift_OK _ _)).
  now apply store_with with n.
Qed.

(** Rule (2a): the leader flips and adds [Max() + M] to its secondary. *)
Lemma CheckConditions_leader s n l r :
  interior_of s n l r ->
  local_leader n l r ->
  in_int (Z.max (secondary l) (secondary r) + M) ->
  in_int (secondary n + (Z.max (secondary l) (secondary r) + M)) ->
  CheckConditions s
  = OK (tt, with_node s
              (set_secondary (secondary n + (Z.max (secondary l) (secondary r) + M))
                             (Update n))).
Proof.
  intros Hi [Hl Hr] Hinc Hsum. unfold CheckConditions.
  rewrite (bind_OK _ _ _ _ _ (isLeader_interior s n l r Hi)).
  assert ((secondary n <? secondary l) || (secondary n <? secondary r) = false) as ->.
  { apply orb_false_iff. rewrite !Z.ltb_ge. lia. }
  cbn [negb].
  rewrite (bind_OK _ _ _ _ _ (node_Update_with s n (interior_self _ _ _ _ Hi))).
  destruct (interior_after_Update s n l r Hi) as (l' & r' & Hi' & Hsl & Hsr).
  rewrite (bind_OK _ _ _ _ _ (Max_interior _ _ _ _ Hi')).
  rewrite Hsl, Hsr, (int_add_OK _ _ Hinc).
  rewrite (bind_OK _ _ _ _ _ (lift_OK _ _)).
  pose proof (interior_self _ _ _ _ Hi') as Hn'. enter Hn'.
  rewrite Update_secondary, (int_add_OK _ _ Hsum).
  rewrite (bind_OK _ _ _ _ _ (lift_OK _ _)).
  rewrite (store_with _ _ _ Hn'). now rewrite with_node_twice.
Qed.

Lemma apply_rules_settled s s' :
  CheckUnequal s = OK (true, s') -> apply_rules s = OK (tt, s').
Proof. intros H. unfold apply_rules. now rewrite (bind_OK _ _ _ _ _ H). Qed.

Lemma apply_rules_unsettled s s' :
  CheckUnequal s = OK (false, s') -> apply_rules s = CheckConditions s'.
Proof. intros H. unfold apply_rules. now rewrite (bind_OK _ _ _ _ _ H). Qed.

Lemma with_node_lookup s n0 n :
  member s !! node s = Some n0 -> member (with_node s n) !! node s = Some n.
Proof.
  intros H. simpl. apply list_lookup_insert_eq. now apply lookup_lt_Some in H.
Qed.

Lemma with_node_others s n j :
  j <> node s -> member (with_node s n) !! j = member s !! j.
Proof. intros H. simpl. apply list_lookup_insert_ne. congruence. Qed.

Lemma ints_lookup s i n : ints s -> member s !! i = Some n -> in_int (secondary n).
Proof.
  unfold ints, secondaries. intros H Hn.
  apply (Forall_lookup_1 _ _ i (secondary n) H).
  now rewrite list_lookup_fmap, Hn.
Qed.

Lemma apply_rules_endpoint_defined s n o :
  endpoint_of s n o -> exists s', apply_rules s = OK (tt, s').
Proof.
  intros He. pose proof (CheckUnequal_endpoint s n o He) as Hc.
  destruct (primary n =? primary o); simpl in Hc;
    eexists; apply apply_rules_settled; exact Hc.
Qed.

(** C9. A node with exactly one neighbour is settled by [CheckUnequal]:
    it answers [true], after flipping the node when the neighbour
    disagrees and after doing nothing when it agrees; so the rule step
    ends there and [CheckConditions], with its leader test, is not run. *)
Theorem endpoint_is_settled_by_CheckUnequal (s : System) (n o : Node) :
  endpoint_of s n o ->
  let s' := if primary n =? primary o then s else with_node s (Update n) in
  CheckUnequal s = OK (true, s')
  /\ apply_rules s = OK (tt, s')
  /\ secondaries s' = secondaries s.
Proof.
  intros He s'.
  assert (CheckUnequal s = OK (true, s')) as Hc.
  { rewrite (CheckUnequal_endpoint s n o He). subst s'.
    now destruct (primary n =? primary o). }
  split; [exact Hc|]. split; [now apply apply_rules_settled|].
  subst s'. destruct (primary n =? primary o); [reflexivity|].
  destruct He as [Hn _]. now apply insert_Update_secondaries.
Qed.

(** C7. In the mixed case, a node that is not the local leader keeps its
    primary value and gains exactly 1 on its secondary value; no other
    node changes. *)
Theorem follower_keeps_primary_and_counts_one (s : System) (n l r : Node) :
  interior_of s n l r ->
  mixed n l r ->
  ~ local_leader n l r ->
  ints s ->
  exists s',
    apply_rules s = OK (tt, s')
    /\ member s' !! node s = Some (set_secondary (secondary n + 1) n)
    /\ primaries s' = primaries s
    /\ secondaries s' !! node s = Some (secondary n + 1)
    /\ (forall j, j <> node s -> member s' !! j = member s !! j)
    /\ node s' = node s.
Proof.
  intros Hi Hm Hnl Hints.
  pose proof (interior_self _ _ _ _ Hi) as Hn.
  assert (in_int (secondary n + 1)) as Hint.
  { destruct Hi as [_ (li & _ & Hli) (ri & _ & Hri)].
    pose proof (ints_lookup _ _ _ Hints Hn).
    pose proof (ints_lookup _ _ _ Hints Hli).
    pose proof (ints_lookup _ _ _ Hints Hri).
    unfold in_int, local_leader in *. lia. }
  exists (with_node s (set_secondary (secondary n + 1) n)).
  split.
  { rewrite (apply_rules_unsettled _ _ (CheckUnequal_mixed s n l r Hi Hm)).
    now apply CheckConditions_follower with l r. }
  split; [now apply with_node_lookup with n|].
  split.
  { unfold primaries. simpl. rewrite list_fmap_insert. simpl.
    apply list_insert_id. now rewrite list_lookup_fmap, Hn. }
  split.
  { unfold secondaries. now rewrite list_lookup_fmap, (with_node_lookup s n _ Hn). }
  split; [intros j Hj; now apply with_node_others | reflexivity].
Qed.

(** C1, as the code has it. In the mixed case, the local leader flips its
    primary value and adds [Max() + M] to its secondary value, with
    [M = 20]: the new secondary is the old one plus the greater of the two
    neighbours' secondaries plus 20, when these sums are values of type
    [int].  No other node changes. *)
Theorem leader_flips_and_adds_max_plus_M (s : System) (n l r : Node) :
  interior_of s n l r ->
  mixed n l r ->
  local_leader n l r ->
  in_int (Z.max (secondary l) (secondary r) + M) ->
  in_int (secondary n + (Z.max (secondary l) (secondary r) + M)) ->
  exists s',
    apply_rules s = OK (tt, s')
    /\ primaries s' !! node s = Some (if primary n =? 0 then 1 else 0)
    /\ secondaries s' !! node s
       = Some (secondary n + Z.max (secondary l) (secondary r) + 20)
    /\ (forall j, j <> node s -> member s' !! j = member s !! j)
    /\ node s' = node s.
Proof.
  intros Hi Hm Hlead Hinc Hsum.
  pose proof (interior_self _ _ _ _ Hi) as Hn.
  eexists. split.
  { rewrite (apply_rules_unsettled _ _ (CheckUnequal_mixed s n l r Hi Hm)).
    exact (CheckConditions_leader s n l r Hi Hlead Hinc Hsum). }
  unfold primaries, secondaries.
  rewrite !list_lookup_fmap, (with_node_lookup s n _ Hn). simpl.
  split; [now rewrite Update_primary|].
  split; [unfold M; f_equal; lia|].
  split; [intros j Hj; now apply with_node_others | reflexivity].
Qed.

(** ** What a method can do to the secondary values *)

Lemma this_node_inv s p s' : this_node s = OK (p, s') -> p = node s /\ s' = s.
Proof. unfold this_node. intros H. injection H as <- <-. now split. Qed.

Lemma load_inv p s n s' : load p s = OK (n, s') -> member s !! p = Some n /\ s' = s.
Proof.
  unfold load. destruct (member s !! p); [|discriminate].
  intros H. injection H as <- <-. now split.
Qed.


Lemma store_inv p n s u s' :
  store p n s = OK (u, s') ->
  exists n0, member s !! p = Some n0
             /\ s' = {| member := <[p := n]> (member s); node := node s |}.
Proof.
  unfold store. destruct (member s !! p) as [n0|]; [|discriminate].
  intros H. injection H as _ <-. now exists n0.
Qed.

Lemma lift_int_add_inv a b s v s' :
  lift (int_add a b) s = OK (v, s') -> v = a + b /\ s' = s.
Proof.
  unfold lift, int_add. destruct (in_intb (a + b)); [|discriminate].
  intros H. injection H as <- <-. now split.
Qed.

Lemma readonly_keeps {X A} (f : Node -> X) (m : Method A) :
  readonly m -> keeps f m.
Proof. intros H s a s' Hm. now rewrite (H s a s' Hm). Qed.





Section Composition.
Context {A B : Type} (m : Method A) (k : A -> Method B).

Lemma readonly_bind : readonly m -> (forall a, readonly (k a)) -> readonly (bind m k).
Proof.
  intros Hm Hk s b s' H. apply bind_inv in H as (a & s1 & H1 & H2).
  apply Hm in H1 as ->. now apply Hk in H2.
Qed.

Lemma keeps_bind {X} (f : Node -> X) :
  keeps f m -> (forall a, keeps f (k a)) -> keeps f (bind m k).
Proof.
  intros Hm Hk s b s' H. apply bind_inv in H as (a & s1 & H1 & H2).
  apply Hm in H1. apply Hk in H2. congruence.
Qed.

End Composition.

Lemma readonly_ret {A} (a : A) : readonly (ret a).
Proof. intros s b s' H. now injection H as _ <-. Qed.

Lemma readonly_fail {A} e : readonly (@fail A e).
Proof. intros s b s' H. discriminate. Qed.

Lemma readonly_this_node : readonly this_node.
Proof. intros s p s' H. now apply this_node_inv in H. Qed.

Lemma readonly_load p : readonly (load p).
Proof. intros s n s' H. now apply load_inv in H. Qed.

Lemma readonly_load_ptr q : readonly (load_ptr q).
Proof. destruct q; [apply readonly_load | apply readonly_fail]. Qed.

Lemma readonly_lift {A} (r : result A) : readonly (lift r).
Proof. intros s a s' H. unfold lift in H. destruct r; [|discriminate]. now injection H as _ <-. Qed.

Lemma readonly_if {A} (c : bool) (m1 m2 : Method A) :
  readonly m1 -> readonly m2 -> readonly (if c then m1 else m2).
Proof. now destruct c. Qed.

Lemma keeps_if {X A} (f : Node -> X) (c : bool) (m1 m2 : Method A) :
  keeps f m1 -> keeps f m2 -> keeps f (if c then m1 else m2).
Proof. now destruct c. Qed.

Create HintDb frame discriminated.
#[local] Hint Resolve readonly_ret readonly_fail readonly_this_node readonly_load
  readonly_load_ptr readonly_lift : frame.

(** Close a read-only goal by following the shape of the method. *)
Ltac read_only :=
  repeat first
    [ progress auto with frame
    | apply readonly_bind; [| intro]
    | apply readonly_if ].

Lemma readonly_differs n q : readonly (differs n q).
Proof. unfold differs. read_only. Qed.

Lemma readonly_agrees n q : readonly (agrees n q).
Proof. unfold agrees. read_only. Qed.

Lemma readonly_below n q : readonly (below n q).
Proof. unfold below. read_only. Qed.

#[local] Hint Resolve readonly_differs readonly_agrees readonly_below : frame.

Lemma readonly_isLeader : readonly isLeader.
Proof.
  unfold isLeader. read_only.
Qed.

Lemma readonly_Max : readonly Max.
Proof. unfold Max. read_only. Qed.

Lemma readonly_LegalConfig : readonly LegalConfig.
Proof. intros s b s' H. unfold LegalConfig in H. now apply readonly_lift in H. Qed.

Lemma node_Update_inv s u s' :
  node_Update s = OK (u, s') ->
  exists n, member s !! node s = Some n /\ s' = with_node s (Update n).
Proof.
  unfold node_Update. intros H.
  apply bind_inv in H as (p & s1 & H1 & H).
  apply this_node_inv in H1 as [-> ->].
  apply bind_inv in H as (n & s1 & H1 & H).
  apply load_inv in H1 as [Hn ->].
  apply store_inv in H as (_ & _ & ->). now exists n.
Qed.

(** Fields that [Update] does not write: all but the primary value. *)
Section Keeps.
Context {X : Type} (f : Node -> X).
Hypothesis f_Update : forall n, f (Update n) = f n.

Lemma insert_Update_keeps (m : list Node) p n :
  m !! p = Some n -> f <$> <[p := Update n]> m = f <$> m.
Proof.
  intros H. rewrite list_fmap_insert, f_Update.
  apply list_insert_id. now rewrite list_lookup_fmap, H.
Qed.

Lemma keeps_node_Update : keeps f node_Update.
Proof.
  intros s u s' H. apply node_Update_inv in H as (n & Hn & ->).
  now apply insert_Update_keeps.
Qed.

Lemma keeps_SelectNode r : keeps f (SelectNode r).
Proof.
  intros s u s' H. unfold SelectNode in H.
  destruct (SYSTEM_SIZE s =? 0); [discriminate|].
  destruct (Z.rem r (SYSTEM_SIZE s) <? 0); [discriminate|].
  injection H as _ <-. reflexivity.
Qed.

Lemma keeps_ret {A} (a : A) : keeps f (ret a).
Proof. apply readonly_keeps, readonly_ret. Qed.

Lemma keeps_LegalConfig : keeps f LegalConfig.
Proof. apply readonly_keeps, readonly_LegalConfig. Qed.

(** Close a goal on a kept field along the shape of the method. *)
Ltac keep_field :=
  repeat first
    [ apply readonly_keeps; solve [read_only]
    | apply keeps_node_Update
    | apply keeps_SelectNode
    | apply keeps_bind; [| intro]
    | apply keeps_if ].

Lemma keeps_TransientFault r : keeps f (TransientFault r).
Proof. unfold TransientFault. keep_field. Qed.

Lemma keeps_CheckUnequal : keeps f CheckUnequal.
Proof. unfold CheckUnequal. keep_field. Qed.

(** Fields that [CheckConditions] does not write either: the pointers. *)
Hypothesis f_set_secondary : forall v n, f (set_secondary v n) = f n.

Lemma keeps_count s p n v u s' :
  member s !! p = Some n ->
  store p (set_secondary v n) s = OK (u, s') ->
  f <$> member s' = f <$> member s.
Proof.
  intros Hn H. apply store_inv in H as (_ & _ & ->). simpl.
  rewrite list_fmap_insert, f_set_secondary.
  apply list_insert_id. now rewrite list_lookup_fmap, Hn.
Qed.

Lemma keeps_CheckConditions : keeps f CheckConditions.
Proof.
  intros s u s' H. unfold CheckConditions in H.
  apply bind_inv in H as (leader & s1 & H1 & H).
  apply readonly_isLeader in H1 as ->.
  destruct leader.
  - apply bind_inv in H as (u1 & s1 & Hup & H).
    apply keeps_node_Update in Hup as <-.
    apply bind_inv in H as (mx & s2 & Hmx & H). apply readonly_Max in Hmx as ->.
    apply bind_inv in H as (inc & s2 & Hinc & H).
    apply lift_int_add_inv in Hinc as [-> ->].
    apply bind_inv in H as (p & s2 & Hp & H). apply this_node_inv in Hp as [-> ->].
    apply bind_inv in H as (n & s2 & Hn & H). apply load_inv in Hn as [Hn ->].
    apply bind_inv in H as (v & s2 & Hv & H).
    apply lift_int_add_inv in Hv as [-> ->].
    exact (keeps_count _ _ _ _ _ _ Hn H).
  - apply bind_inv in H as (p & s2 & Hp & H). apply this_node_inv in Hp as [-> ->].
    apply bind_inv in H as (n & s2 & Hn & H). apply load_inv in Hn as [Hn ->].
    apply bind_inv in H as (v & s2 & Hv & H).
    apply lift_int_add_inv in Hv as [-> ->].
    exact (keeps_count _ _ _ _ _ _ Hn H).
Qed.

Lemma keeps_apply_rules : keeps f apply_rules.
Proof.
  unfold apply_rules. apply keeps_bind; [apply keeps_CheckUnequal|].
  intros []; [apply keeps_ret | apply keeps_CheckConditions].
Qed.

Lemma keeps_Stabilize rands : keeps f (Stabilize rands).
Proof.
  induction rands as [|r rest IH]; simpl;
    (apply keeps_bind; [apply keeps_LegalConfig|]);
    intros []; simpl; try apply keeps_ret.
  apply keeps_bind; [apply keeps_SelectNode|]. intros _.
  apply keeps_bind; [apply keeps_apply_rules|]. intros _.
  apply keeps_bind; [exact IH|]. intros turns. apply keeps_ret.
Qed.

Lemma keeps_perform o : keeps f (perform o).
Proof.
  destruct o as [r | r | | rands]; simpl.
  - apply keeps_TransientFault.
  - apply keeps_bind; [apply keeps_SelectNode | intros; apply keeps_apply_rules].
  - apply keeps_bind; [apply keeps_LegalConfig | intros; apply keeps_ret].
  - apply keeps_bind; [apply keeps_Stabilize | intros; apply keeps_ret].
Qed.

Lemma keeps_perform_all os : keeps f (perform_all os).
Proof.
  induction os as [|o rest IH]; simpl; [apply keeps_ret|].
  apply keeps_bind; [apply keeps_perform | intros _; exact IH].
Qed.
End Keeps.
















(** ** The constructor *)

Lemma link_length size i m : length (link size i m) = length m.
Proof.
  unfold link. destruct (i =? 0)%nat; [|destruct (i =? size - 1)%nat];
    apply length_alter.
Qed.

Lemma link_secondaries size i m : secondary <$> link size i m = secondary <$> m.
Proof.
  unfold link. destruct (i =? 0)%nat; [|destruct (i =? size - 1)%nat];
    (rewrite (list_fmap_alter secondary _ id);
     [now apply list_alter_id | now apply Forall_forall]).
Qed.

Lemma links_length size idx m :
  length (fold_left (fun m i => link size i m) idx m) = length m.
Proof.
  revert m. induction idx as [|i rest IH]; intros m; simpl; [reflexivity|].
  now rewrite IH, link_length.
Qed.

Lemma links_secondaries size idx m :
  secondary <$> fold_left (fun m i => link size i m) idx m = secondary <$> m.
Proof.
  revert m. induction idx as [|i rest IH]; intros m; simpl; [reflexivity|].
  now rewrite IH, link_secondaries.
Qed.

Lemma System_new_OK n :
  0 <= n ->
  exists s, System_new n = OK s
            /\ SYSTEM_SIZE s = n
            /\ node s = 0%nat
            /\ secondaries s = replicate (Z.to_nat n) 5.
Proof.
  intros Hn. unfold System_new.
  destruct (n <? 0) eqn:E; [apply Z.ltb_lt in E; lia|].
  eexists. split; [reflexivity|]. unfold SYSTEM_SIZE, secondaries. simpl.
  rewrite links_length, length_replicate, links_secondaries, fmap_replicate.
  repeat split. lia.
Qed.




(** *** Where the secondary value cannot grow any more *)






(** ** The examples of the specification, run *)

(** C4. Three nodes, node 1 corrupted: primaries [0,1,0], secondaries 5.
    With the cursor on node 1, both neighbours disagree, [CheckUnequal]
    flips the node and answers [true], the primaries are [0,0,0] and
    [LegalConfig], which answered [false] before, answers [true]. *)
Theorem golden_line_010_settles_in_one_turn :
  exists n l r,
    System_new 3 = OK (line3 0 0 0 5 5 5 0)
    /\ TransientFault 1 (line3 0 0 0 5 5 5 0) = OK (tt, line3 0 1 0 5 5 5 1)
    /\ primaries (line3 0 1 0 5 5 5 1) = [0; 1; 0]
    /\ LegalConfig (line3 0 1 0 5 5 5 1) = OK (false, line3 0 1 0 5 5 5 1)
    /\ SelectNode 1 (line3 0 1 0 5 5 5 1) = OK (tt, line3 0 1 0 5 5 5 1)
    /\ interior_of (line3 0 1 0 5 5 5 1) n l r
    /\ primary n <> primary l /\ primary n <> primary r
    /\ CheckUnequal (line3 0 1 0 5 5 5 1) = OK (true, line3 0 0 0 5 5 5 1)
    /\ apply_rules (line3 0 1 0 5 5 5 1) = OK (tt, line3 0 0 0 5 5 5 1)
    /\ primaries (line3 0 0 0 5 5 5 1) = [0; 0; 0]
    /\ LegalConfig (line3 0 0 0 5 5 5 1) = OK (true, line3 0 0 0 5 5 5 1).
Proof.
  exists (mkNode 1 5 (Some 0%nat) (Some 2%nat)),
         (mkNode 0 5 None (Some 1%nat)),
         (mkNode 0 5 (Some 1%nat) None).
  repeat (split; [reflexivity|]).
  split.
  { split; [reflexivity | exists 0%nat; now split | exists 2%nat; now split]. }
  repeat (split; [simpl; lia|]).
  repeat (split; [reflexivity|]). reflexivity.
Qed.

(** C1 as the specification words it fails on its own example: four nodes,
    primaries [0,0,1,1], secondaries 5, cursor on node 1.  The node is the
    local leader of a mixed neighbourhood; it flips to 1 and its secondary
    value becomes 5 + (5 + 20) = 30, which is not max(5,5) + M = 25. *)
Lemma leader_secondary_is_30_not_25 :
  System_new 4 = OK (line4 0 0 0 0 5 5 5 5 0)
  /\ perform_all [Fault 2; Fault 3] (line4 0 0 0 0 5 5 5 5 0)
     = OK (tt, line4 0 0 1 1 5 5 5 5 3)
  /\ SelectNode 1 (line4 0 0 1 1 5 5 5 5 3) = OK (tt, line4 0 0 1 1 5 5 5 5 1)
  /\ apply_rules (line4 0 0 1 1 5 5 5 5 1) = OK (tt, line4 0 1 1 1 5 30 5 5 1)
  /\ secondaries (line4 0 1 1 1 5 30 5 5 1) !! 1%nat = Some 30
  /\ secondaries (line4 0 1 1 1 5 30 5 5 1) !! 1%nat <> Some (Z.max 5 5 + M).
Proof.
  repeat (split; [reflexivity|]). discriminate.
Qed.

(** The leader of the example: 5 + max(5,5) + 20 = 30. *)
Lemma leader_flips_and_adds_max_plus_M_witness :
  interior_of (line4 0 0 1 1 5 5 5 5 1)
    (mkNode 0 5 (Some 0%nat) (Some 2%nat))
    (mkNode 0 5 None (Some 1%nat))
    (mkNode 1 5 (Some 1%nat) (Some 3%nat))
  /\ exists s',
       apply_rules (line4 0 0 1 1 5 5 5 5 1) = OK (tt, s')
       /\ primaries s' !! 1%nat = Some 1
       /\ secondaries s' !! 1%nat = Some 30
       /\ (forall j, j <> 1%nat ->
             member s' !! j = member (line4 0 0 1 1 5 5 5 5 1) !! j)
       /\ node s' = 1%nat.
Proof.
  assert (interior_of (line4 0 0 1 1 5 5 5 5 1)
            (mkNode 0 5 (Some 0%nat) (Some 2%nat))
            (mkNode 0 5 None (Some 1%nat))
            (mkNode 1 5 (Some 1%nat) (Some 3%nat))) as Hi.
  { split; [reflexivity | exists 0%nat; now split | exists 2%nat; now split]. }
  split; [exact Hi|].
  apply (leader_flips_and_adds_max_plus_M _ _ _ _ Hi).
  - left. simpl. split; [reflexivity | lia].
  - split; simpl; lia.
  - unfold in_int, INT_MIN, INT_MAX, M. simpl. lia.
  - unfold in_int, INT_MIN, INT_MAX, M. simpl. lia.
Defined.

(** Node 2 of [0,0,1,1] next to a leader that already has 30. *)
Lemma follower_keeps_primary_and_counts_one_witness :
  perform_all [Fault 2; Fault 3; Turn 1; Fault 1] (line4 0 0 0 0 5 5 5 5 0)
  = OK (tt, line4 0 0 1 1 5 30 5 5 1)
  /\ SelectNode 2 (line4 0 0 1 1 5 30 5 5 1) = OK (tt, line4 0 0 1 1 5 30 5 5 2)
  /\ exists s',
       apply_rules (line4 0 0 1 1 5 30 5 5 2) = OK (tt, s')
       /\ member s' !! 2%nat = Some (mkNode 1 6 (Some 1%nat) (Some 3%nat))
       /\ primaries s' = [0; 0; 1; 1]
       /\ secondaries s' !! 2%nat = Some 6
       /\ (forall j, j <> 2%nat ->
             member s' !! j = member (line4 0 0 1 1 5 30 5 5 2) !! j)
       /\ node s' = 2%nat.
Proof.
  split; [reflexivity|]. split; [reflexivity|].
  apply (follower_keeps_primary_and_counts_one (line4 0 0 1 1 5 30 5 5 2)
           (mkNode 1 5 (Some 1%nat) (Some 3%nat))
           (mkNode 0 30 (Some 0%nat) (Some 2%nat))
           (mkNode 1 5 (Some 2%nat) None)).
  - split; [reflexivity | exists 1%nat; now split | exists 3%nat; now split].
  - right. simpl. split; [lia | reflexivity].
  - unfold local_leader. simpl. lia.
  - unfold ints. change (secondaries _) with [5; 30; 5; 5].
    repeat (apply Forall_cons; split;
            [unfold in_int, INT_MIN, INT_MAX; simpl; lia|]).
    apply Forall_nil_2.
Defined.

(** Two nodes, node 0 corrupted: it flips back against its only neighbour. *)
Lemma endpoint_is_settled_by_CheckUnequal_witness :
  System_new 2 = OK (line2 0 0 5 5 0)
  /\ TransientFault 0 (line2 0 0 5 5 0) = OK (tt, line2 1 0 5 5 0)
  /\ endpoint_of (line2 1 0 5 5 0)
       (mkNode 1 5 None (Some 1%nat)) (mkNode 0 5 (Some 0%nat) None)
  /\ CheckUnequal (line2 1 0 5 5 0) = OK (true, line2 0 0 5 5 0)
  /\ apply_rules (line2 1 0 5 5 0) = OK (tt, line2 0 0 5 5 0)
  /\ secondaries (line2 0 0 5 5 0) = secondaries (line2 1 0 5 5 0).
Proof.
  assert (endpoint_of (line2 1 0 5 5 0)
            (mkNode 1 5 None (Some 1%nat)) (mkNode 0 5 (Some 0%nat) None)) as He.
  { split; [reflexivity|]. left. split; [reflexivity|]. exists 1%nat. now split. }
  split; [reflexivity|]. split; [reflexivity|]. split; [exact He|].
  exact (endpoint_is_settled_by_CheckUnequal _ _ _ He).
Defined.

(** [rand()] returns 6 in a system of four nodes: node 2 is hit. *)
Lemma TransientFault_flips_selected_primary_only_witness :
  0 <= 6 /\ 0 < SYSTEM_SIZE (line4 0 0 0 0 5 5 5 5 0)
  /\ exists n s',
       member (line4 0 0 0 0 5 5 5 5 0) !! 2%nat = Some n
       /\ TransientFault 6 (line4 0 0 0 0 5 5 5 5 0) = OK (tt, s')
       /\ node s' = 2%nat
       /\ primaries s' !! 2%nat = Some (if primary n =? 0 then 1 else 0)
       /\ primaries s' !! 2%nat <> primaries (line4 0 0 0 0 5 5 5 5 0) !! 2%nat
       /\ secondaries s' = secondaries (line4 0 0 0 0 5 5 5 5 0)
       /\ left <$> member s' = left <$> member (line4 0 0 0 0 5 5 5 5 0)
       /\ right <$> member s' = right <$> member (line4 0 0 0 0 5 5 5 5 0)
       /\ (forall j, j <> 2%nat ->
             member s' !! j = member (line4 0 0 0 0 5 5 5 5 0) !! j).
Proof.
  assert (0 <= 6) as Hr by lia.
  assert (0 < SYSTEM_SIZE (line4 0 0 0 0 5 5 5 5 0)) as Hn by reflexivity.
  split; [exact Hr|]. split; [exact Hn|].
  exact (TransientFault_flips_selected_primary_only _ 6 Hr Hn).
Defined.

(** ** Sizes below two *)

(** C2, on the code. For [_SYSTEM_SIZE = 1] the loop of the constructor
    takes the branch of the first node and stores [&member[1]] in the
    right pointer of the only node: the node has no left neighbour, but
    its right pointer is not null and points past the one-cell array.  A
    rule step on that node reads through the pointer. *)
Theorem System_new_one_right_points_past_the_array :
  exists s n,
    System_new 1 = OK s
    /\ member s = [n]
    /\ left n = None
    /\ right n = Some 1%nat
    /\ member s !! 1%nat = None
    /\ CheckUnequal s = Err OutOfBounds.
Proof.
  exists {| member := [mkNode 0 5 None (Some 1%nat)]; node := 0 |},
         (mkNode 0 5 None (Some 1%nat)).
  repeat (split; [reflexivity|]). reflexivity.
Qed.

(** C3 as the specification words it fails at [N = 0]: the constructor
    returns an object with an empty array and raises nothing. *)
Lemma System_new_zero_succeeds :
  0 < 1
  /\ System_new 0 = OK {| member := []; node := 0 |}
  /\ ~ (exists e, System_new 0 = Err e).
Proof.
  split; [lia|]. split; [reflexivity|]. intros [e He]. discriminate He.
Qed.

(** C3, as the code has it. The constructor checks no size.  It fails
    exactly when [_SYSTEM_SIZE] is negative, where [new Node[...]] is
    refused and no object exists; for every size from 0 on it returns a
    system of exactly that many nodes, all with secondary value 5, and the
    cursor on the first cell. *)
Theorem System_new_fails_only_below_zero (n : Z) :
  match System_new n with
  | OK s => 0 <= n
            /\ SYSTEM_SIZE s = n
            /\ node s = 0%nat
            /\ secondaries s = replicate (Z.to_nat n) 5
  | Err e => n < 0 /\ e = BadArrayNewLength
  end.
Proof.
  destruct (Z.lt_ge_cases n 0) as [Hlt|Hge].
  - unfold System_new. pose proof Hlt as Hb. apply Z.ltb_lt in Hb.
    rewrite Hb. now split.
  - destruct (System_new_OK n Hge) as (s & -> & Hsize & Hnode & Hsec).
    now repeat split.
Qed.

Lemma single_LegalConfig s : SYSTEM_SIZE s = 1 -> LegalConfig s = OK (true, s).
Proof.
  intros Hsize.
  destruct (LegalConfig_single s) as (b & Hrun & Hone).
  now rewrite Hrun, (Hone Hsize).
Qed.

Lemma single_TransientFault r s :
  SYSTEM_SIZE s = 1 ->
  exists s', TransientFault r s = OK (tt, s') /\ SYSTEM_SIZE s' = 1.
Proof.
  intros Hsize. unfold TransientFault.
  assert (SelectNode r s = OK (tt, {| member := member s; node := 0 |})) as Hsel.
  { unfold SelectNode. rewrite Hsize, Z.rem_1_r. reflexivity. }
  rewrite (bind_OK _ _ _ _ _ Hsel).
  destruct (member s) as [|n [|? ?]] eqn:Hm;
    unfold SYSTEM_SIZE in Hsize; rewrite Hm in Hsize; simpl in Hsize; try lia.
  eexists. split.
  - apply node_Update_OK. simpl. reflexivity.
  - reflexivity.
Qed.

Lemma single_TransientFaults faults s :
  SYSTEM_SIZE s = 1 ->
  exists s', TransientFaults faults s = OK (tt, s') /\ SYSTEM_SIZE s' = 1.
Proof.
  revert s. induction faults as [|r rest IH]; intros s Hsize; simpl.
  - now exists s.
  - destruct (single_TransientFault r s Hsize) as (s1 & H1 & Hsize1).
    rewrite (bind_OK _ _ _ _ _ H1). now apply IH.
Qed.

Lemma Stabilize_legal rands s :
  LegalConfig s = OK (true, s) -> Stabilize rands s = OK (Some 0%nat, s).
Proof.
  intros H. destruct rands; simpl; now rewrite (bind_OK _ _ _ _ _ H).
Qed.

(** C10. In a system of one node, whatever faults are injected first,
    [LegalConfig] answers [true], so [Stabilize] leaves its loop before
    the first turn, whatever [rand()] would have returned: it takes 0
    turns and changes nothing, and [CheckUnequal] is not run.
    [CheckUnequal] itself has no case for a node without neighbours: on
    such a node it reads through the null right pointer. *)
Theorem single_node_loop_takes_no_turn (faults rands : list Z) :
  exists s0 s,
    System_new 1 = OK s0
    /\ TransientFaults faults s0 = OK (tt, s)
    /\ SYSTEM_SIZE s = 1
    /\ LegalConfig s = OK (true, s)
    /\ Stabilize rands s = OK (Some 0%nat, s)
    /\ (forall t n, isolated_of t n -> CheckUnequal t = Err NullDeref).
Proof.
  destruct (System_new_OK 1 ltac:(lia)) as (s0 & Hnew & Hsize0 & _).
  destruct (single_TransientFaults faults s0 Hsize0) as (s & Hrun & Hsize).
  exists s0, s. split; [exact Hnew|]. split; [exact Hrun|]. split; [exact Hsize|].
  pose proof (single_LegalConfig s Hsize) as Hlegal.
  split; [exact Hlegal|]. split; [now apply Stabilize_legal|].
  exact CheckUnequal_isolated.
Qed.

(** ** The wiring, and turns that cannot fail *)

Lemma link_wire size i m : link size i m = alter (wire size i) i m.
Proof.
  unfold link, wire.
  destruct (i =? 0)%nat; [|destruct (i =? size - 1)%nat]; reflexivity.
Qed.

(** The constructor's loop over [a, a + k) rewires exactly those cells. *)
Lemma links_lookup size k : forall a m i,
  fold_left (fun m i => link size i m) (seq a k) m !! i
  = if decide (a <= i < a + k)%nat then wire size i <$> m !! i else m !! i.
Proof.
  induction k as [|k IH]; intros a m i; simpl.
  - destruct (decide (a <= i < a + 0)%nat); [lia | reflexivity].
  - rewrite IH, link_wire.
    destruct (decide (a = i)) as [<-|Hne].
    + rewrite list_lookup_alter_eq.
      destruct (decide (S a <= a < S a + k)%nat); [lia|].
      destruct (decide (a <= a < a + S k)%nat); [reflexivity | lia].
    + rewrite list_lookup_alter_ne by exact Hne.
      destruct (decide (S a <= i < S a + k)%nat),
               (decide (a <= i < a + S k)%nat); try reflexivity; lia.
Qed.

Lemma System_new_lookup n s i x :
  System_new n = OK s -> member s !! i = Some x ->
  x = wire (length (member s)) i Node_new.
Proof.
  unfold System_new. destruct (n <? 0); [discriminate|].
  intros H. injection H as <-. simpl.
  rewrite links_length, length_replicate, links_lookup.
  destruct (decide (0 <= i < 0 + Z.to_nat n)%nat) as [Hi|Hi].
  - rewrite lookup_replicate_2 by lia. simpl. congruence.
  - intros Hx. apply lookup_replicate in Hx as [_ Hlt]. lia.
Qed.

Lemma wired_System_new n s : System_new n = OK s -> wired s.
Proof.
  intros H i x Hx. now rewrite (System_new_lookup n s i x H Hx) at 1 2.
Qed.

Lemma wired_kept s s' :
  left <$> member s' = left <$> member s ->
  right <$> member s' = right <$> member s ->
  wired s -> wired s'.
Proof.
  intros Hl Hr Hw i x' Hx'.
  assert (length (member s') = length (member s)) as Hlen.
  { rewrite <- (length_fmap left (member s')), Hl. apply length_fmap. }
  destruct (lookup_lt_is_Some_2 (member s) i) as [x Hx].
  { rewrite <- Hlen. now apply lookup_lt_Some in Hx'. }
  destruct (Hw i x Hx) as [Hwl Hwr]. rewrite Hlen, <- Hwl, <- Hwr.
  assert ((left <$> member s') !! i = (left <$> member s) !! i) as Hli
    by now rewrite Hl.
  assert ((right <$> member s') !! i = (right <$> member s) !! i) as Hri
    by now rewrite Hr.
  rewrite !list_lookup_fmap, Hx, Hx' in Hli, Hri. simpl in Hli, Hri.
  split; congruence.
Qed.

(** Nothing after the constructor writes a neighbour pointer. *)
Lemma wired_perform_all os s u s' :
  wired s -> perform_all os s = OK (u, s') -> wired s'.
Proof.
  intros Hw H. apply (wired_kept s s'); [| | exact Hw].
  - exact (keeps_perform_all left Update_left (fun _ _ => eq_refl) os s u s' H).
  - exact (keeps_perform_all right Update_right (fun _ _ => eq_refl) os s u s' H).
Qed.

Lemma headroom_lookup s i n :
  Forall headroom (secondaries s) -> member s !! i = Some n ->
  headroom (secondary n).
Proof.
  unfold secondaries. intros H Hn.
  apply (Forall_lookup_1 _ _ i (secondary n) H).
  now rewrite list_lookup_fmap, Hn.
Qed.

Lemma apply_rules_interior_defined s n l r :
  interior_of s n l r ->
  headroom (secondary n) -> headroom (secondary l) -> headroom (secondary r) ->
  exists s', apply_rules s = OK (tt, s').
Proof.
  intros Hi Hn Hl Hr. pose proof (CheckUnequal_interior s n l r Hi) as Hc.
  destruct (negb (primary n =? primary l) && negb (primary n =? primary r));
    [eexists; apply apply_rules_settled; exact Hc|].
  destruct ((primary n =? primary l) && (primary n =? primary r));
    [eexists; apply apply_rules_settled; exact Hc|].
  rewrite (apply_rules_unsettled _ _ Hc).
  unfold headroom, INT_MAX, M in *.
  destruct (decide (secondary l <= secondary n /\ secondary r <= secondary n))
    as [Hlead|Hfollow].
  - eexists. apply (CheckConditions_leader s n l r Hi Hlead);
      unfold in_int, INT_MIN, INT_MAX, M; lia.
  - eexists. apply (CheckConditions_follower s n l r Hi Hfollow).
    unfold in_int, INT_MIN, INT_MAX; lia.
Qed.

(** X25. In a system of at least two nodes wired by the constructor, a turn of
    the loop has defined behaviour whenever the secondary values leave
    room for a leader's sum: every pointer it follows is in the array and
    no addition overflows. *)
Theorem Turn_is_defined (s : System) (r : Z) :
  wired s ->
  2 <= SYSTEM_SIZE s ->
  0 <= r ->
  Forall headroom (secondaries s) ->
  exists s', perform (Turn r) s = OK (tt, s') /\ wired s'.
Proof.
  intros Hw Hsize Hr Hroom.
  assert (exists s', perform (Turn r) s = OK (tt, s')) as [s' Hs'].
  { destruct (SelectNode_OK r s Hr ltac:(lia)) as [Hsel Hlt].
    simpl. rewrite (bind_OK _ _ _ _ _ Hsel).
    set (i := Z.to_nat (Z.rem r (SYSTEM_SIZE s))) in *.
    set (t := {| member := member s; node := i |}).
    destruct (lookup_lt_is_Some_2 (member s) i Hlt) as [n Hn].
    destruct (Hw i n Hn) as [Hl Hrt].
    unfold SYSTEM_SIZE in Hsize. unfold wire in Hl, Hrt.
    destruct (i =? 0)%nat eqn:E0; [apply Nat.eqb_eq in E0 | apply Nat.eqb_neq in E0].
    - destruct (lookup_lt_is_Some_2 (member s) (i + 1)) as [o Ho]; [lia|].
      assert (endpoint_of t n o) as He.
      { split; [exact Hn|]. left. split; [exact Hl|]. now exists (i + 1)%nat. }
      destruct (apply_rules_endpoint_defined t n o He) as [t' Ht'].
      now exists t'.
    - destruct (i =? length (member s) - 1)%nat eqn:E1;
        [apply Nat.eqb_eq in E1 | apply Nat.eqb_neq in E1].
      + destruct (lookup_lt_is_Some_2 (member s) (i - 1)) as [o Ho]; [lia|].
        assert (endpoint_of t n o) as He.
        { split; [exact Hn|]. right. split; [exact Hrt|]. now exists (i - 1)%nat. }
        destruct (apply_rules_endpoint_defined t n o He) as [t' Ht'].
        now exists t'.
      + destruct (lookup_lt_is_Some_2 (member s) (i - 1)) as [l Hlo]; [lia|].
        destruct (lookup_lt_is_Some_2 (member s) (i + 1)) as [o Ho]; [lia|].
        apply (apply_rules_interior_defined t n l o).
        * split; [exact Hn | now exists (i - 1)%nat | now exists (i + 1)%nat].
        * exact (headroom_lookup s _ _ Hroom Hn).
        * exact (headroom_lookup s _ _ Hroom Hlo).
        * exact (headroom_lookup s _ _ Hroom Ho). }
  exists s'. split; [exact Hs'|].
  apply (wired_perform_all [Turn r] s tt s' Hw).
  simpl. rewrite (bind_OK _ _ _ _ _ Hs'). reflexivity.
Qed.

(** A turn on a state that the program reaches. *)
Lemma Turn_is_defined_witness :
  wired (line4 0 0 1 1 5 30 5 5 1)
  /\ exists s', perform (Turn 6) (line4 0 0 1 1 5 30 5 5 1) = OK (tt, s')
                /\ wired s'.
Proof.
  assert (wired (line4 0 0 1 1 5 30 5 5 1)) as Hw.
  { apply (wired_perform_all [Fault 2; Fault 3; Turn 1; Fault 1]
             (line4 0 0 0 0 5 5 5 5 0) tt); [|reflexivity].
    now apply (wired_System_new 4). }
  split; [exact Hw|].
  apply (Turn_is_defined _ 6 Hw); [unfold SYSTEM_SIZE; simpl; lia | lia |].
  change (secondaries _) with [5; 30; 5; 5].
  repeat (apply Forall_cons; split;
          [unfold headroom, INT_MAX, M; simpl; lia|]).
  apply Forall_nil_2.
Defined.

(** ** The line the constructor builds *)

(** The cell at every index of a new system of two or more nodes. *)
Lemma System_new_cell n s i :
  System_new n = OK s -> 2 <= n -> (i < Z.to_nat n)%nat ->
  member s !! i
  = Some (mkNode 0 5
            (if (i =? 0)%nat then None else Some (i - 1)%nat)
            (if (i =? Z.to_nat n - 1)%nat then None else Some (i + 1)%nat)).
Proof.
  intros Hnew Hn Hi.
  destruct (System_new_OK n ltac:(lia)) as (s1 & Hs1 & Hsize & _).
  rewrite Hnew in Hs1. injection Hs1 as <-.
  assert (length (member s) = Z.to_nat n) as Hlen
    by (unfold SYSTEM_SIZE in Hsize; lia).
  destruct (lookup_lt_is_Some_2 (member s) i ltac:(lia)) as [x Hx].
  rewrite Hx, (System_new_lookup n s i x Hnew Hx), Hlen. f_equal.
  unfold wire.
  destruct (i =? 0)%nat eqn:E0.
  - apply Nat.eqb_eq in E0. subst i.
    destruct (0 =? Z.to_nat n - 1)%nat eqn:E1; [apply Nat.eqb_eq in E1; lia|].
    reflexivity.
  - destruct (i =? Z.to_nat n - 1)%nat; reflexivity.
Qed.

(** X1. The constructor, for a size of two or more, builds a line: every
    node starts with primary 0 and secondary 5, node [i] points left to
    [i - 1] and right to [i + 1], the first node has a null left pointer
    and the last one a null right pointer. *)
Theorem System_new_builds_a_line (n : Z) (s : System) (i : nat) :
  System_new n = OK s ->
  2 <= n ->
  (i < Z.to_nat n)%nat ->
  member s !! i
  = Some (mkNode 0 5
            (if (i =? 0)%nat then None else Some (i - 1)%nat)
            (if (i =? Z.to_nat n - 1)%nat then None else Some (i + 1)%nat)).
Proof. apply System_new_cell. Qed.

(** Three nodes: the middle one points both ways. *)
Lemma System_new_builds_a_line_witness :
  System_new 3 = OK (line3 0 0 0 5 5 5 0)
  /\ member (line3 0 0 0 5 5 5 0) !! 1%nat
     = Some (mkNode 0 5 (Some 0%nat) (Some 2%nat)).
Proof.
  assert (System_new 3 = OK (line3 0 0 0 5 5 5 0)) as H by reflexivity.
  split; [exact H|].
  exact (System_new_builds_a_line 3 _ 1 H ltac:(lia) ltac:(simpl; lia)).
Defined.

(** X2. In a new system of two or more nodes the neighbour pointers are
    symmetric and stay inside the array: node [i] points right to [j]
    exactly when node [j] points left to [i], and then [j = i + 1]. *)
Theorem System_new_neighbours_are_symmetric
    (n : Z) (s : System) (i j : nat) (x y : Node) :
  System_new n = OK s ->
  2 <= n ->
  member s !! i = Some x ->
  member s !! j = Some y ->
  (right x = Some j <-> left y = Some i)
  /\ (right x = Some j -> j = (i + 1)%nat).
Proof.
  intros Hnew Hn Hx Hy.
  destruct (System_new_OK n ltac:(lia)) as (s1 & Hs1 & Hsize & _).
  rewrite Hnew in Hs1. injection Hs1 as <-.
  assert (length (member s) = Z.to_nat n) as Hlen
    by (unfold SYSTEM_SIZE in Hsize; lia).
  pose proof (lookup_lt_Some _ _ _ Hx) as Hi.
  pose proof (lookup_lt_Some _ _ _ Hy) as Hj.
  rewrite (System_new_cell n s i Hnew Hn ltac:(lia)) in Hx.
  rewrite (System_new_cell n s j Hnew Hn ltac:(lia)) in Hy.
  injection Hx as <-. injection Hy as <-. simpl.
  destruct (i =? Z.to_nat n - 1)%nat eqn:Ei;
    [apply Nat.eqb_eq in Ei | apply Nat.eqb_neq in Ei];
    (destruct (j =? 0)%nat eqn:Ej;
      [apply Nat.eqb_eq in Ej | apply Nat.eqb_neq in Ej]);
    (split; [split|]); intros H; try discriminate;
    try (injection H as H); try (f_equal; lia); lia.
Qed.

Lemma System_new_neighbours_are_symmetric_witness :
  System_new 3 = OK (line3 0 0 0 5 5 5 0)
  /\ (right (mkNode 0 5 (Some 0%nat) (Some 2%nat)) = Some 2%nat
      <-> left (mkNode 0 5 (Some 1%nat) None) = Some 1%nat).
Proof.
  assert (System_new 3 = OK (line3 0 0 0 5 5 5 0)) as H by reflexivity.
  split; [exact H|].
  exact (proj1 (System_new_neighbours_are_symmetric 3 _ 1 2 _ _ H ltac:(lia)
                  eq_refl eq_refl)).
Defined.

(** X3. No operation of a run writes a neighbour pointer or changes the
    number of nodes: after any sequence of faults, checks, turns and
    loops, every node has the left and right pointers it had before. *)
Theorem run_keeps_pointers_and_size
    (os : list operation) (s s' : System) (u : unit) :
  perform_all os s = OK (u, s') ->
  left <$> member s' = left <$> member s
  /\ right <$> member s' = right <$> member s
  /\ SYSTEM_SIZE s' = SYSTEM_SIZE s.
Proof.
  intros H.
  pose proof (keeps_perform_all left Update_left (fun _ _ => eq_refl) os s u s' H)
    as Hl.
  pose proof (keeps_perform_all right Update_right (fun _ _ => eq_refl) os s u s' H)
    as Hr.
  split; [exact Hl|]. split; [exact Hr|].
  unfold SYSTEM_SIZE. f_equal.
  rewrite <- (length_fmap left (member s')), Hl. apply length_fmap.
Qed.

Lemma run_keeps_pointers_and_size_witness :
  perform_all [Fault 2; Fault 3; Turn 1; Fault 1; Turn 2; Legal; Loop [1; 2]]
    (line4 0 0 0 0 5 5 5 5 0)
  = OK (tt, line4 0 1 1 1 5 56 6 5 2)
  /\ left <$> member (line4 0 1 1 1 5 56 6 5 2)
     = left <$> member (line4 0 0 0 0 5 5 5 5 0)
  /\ right <$> member (line4 0 1 1 1 5 56 6 5 2)
     = right <$> member (line4 0 0 0 0 5 5 5 5 0)
  /\ SYSTEM_SIZE (line4 0 1 1 1 5 56 6 5 2) = SYSTEM_SIZE (line4 0 0 0 0 5 5 5 5 0).
Proof.
  assert (perform_all
            [Fault 2; Fault 3; Turn 1; Fault 1; Turn 2; Legal; Loop [1; 2]]
            (line4 0 0 0 0 5 5 5 5 0)
          = OK (tt, line4 0 1 1 1 5 56 6 5 2)) as H by reflexivity.
  split; [exact H|].
  exact (run_keeps_pointers_and_size _ _ _ _ H).
Defined.

(** ** Properties of the nodes that every method keeps *)

Lemma readonly_holds {A} (P : Node -> Prop) (m : Method A) :
  readonly m -> holds P m.
Proof. intros H s a s' HP Hm. now rewrite (H s a s' Hm). Qed.

Lemma holds_bind {A B} (P : Node -> Prop) (m : Method A) (k : A -> Method B) :
  holds P m -> (forall a, holds P (k a)) -> holds P (bind m k).
Proof.
  intros Hm Hk s b s' HP H. apply bind_inv in H as (a & s1 & H1 & H2).
  exact (Hk a s1 b s' (Hm s a s1 HP H1) H2).
Qed.

Lemma holds_if {A} (P : Node -> Prop) (c : bool) (m1 m2 : Method A) :
  holds P m1 -> holds P m2 -> holds P (if c then m1 else m2).
Proof. now destruct c. Qed.

Lemma holds_SelectNode (P : Node -> Prop) r : holds P (SelectNode r).
Proof.
  intros s u s' HP H. unfold SelectNode in H.
  destruct (SYSTEM_SIZE s =? 0); [discriminate|].
  destruct (Z.rem r (SYSTEM_SIZE s) <? 0); [discriminate|].
  injection H as _ <-. exact HP.
Qed.

Section Holds.
Context (P : Node -> Prop).
Hypothesis P_Update : forall n, P n -> P (Update n).
Hypothesis P_set_secondary : forall v n, P n -> P (set_secondary v n).

Lemma holds_node_Update : holds P node_Update.
Proof.
  intros s u s' HP H. apply node_Update_inv in H as (n & Hn & ->). simpl.
  apply Forall_insert; [exact HP|].
  apply P_Update. exact (Forall_lookup_1 _ _ _ _ HP Hn).
Qed.

Lemma holds_ret {A} (a : A) : holds P (ret a).
Proof. apply readonly_holds, readonly_ret. Qed.

Lemma holds_LegalConfig : holds P LegalConfig.
Proof. apply readonly_holds, readonly_LegalConfig. Qed.

(** Close a goal on a kept property along the shape of the method. *)
Ltac hold_property :=
  repeat first
    [ apply readonly_holds; solve [read_only]
    | apply holds_node_Update
    | apply holds_SelectNode
    | apply holds_bind; [| intro]
    | apply holds_if ].

Lemma holds_TransientFault r : holds P (TransientFault r).
Proof. unfold TransientFault. hold_property. Qed.

Lemma holds_CheckUnequal : holds P CheckUnequal.
Proof. unfold CheckUnequal. hold_property. Qed.

Lemma holds_count s p n v u s' :
  Forall P (member s) ->
  member s !! p = Some n ->
  store p (set_secondary v n) s = OK (u, s') ->
  Forall P (member s').
Proof.
  intros HP Hn H. apply store_inv in H as (_ & _ & ->). simpl.
  apply Forall_insert; [exact HP|].
  apply P_set_secondary. exact (Forall_lookup_1 _ _ _ _ HP Hn).
Qed.

Lemma holds_CheckConditions : holds P CheckConditions.
Proof.
  intros s u s' HP H. unfold CheckConditions in H.
  apply bind_inv in H as (leader & s1 & H1 & H).
  apply readonly_isLeader in H1 as ->.
  destruct leader.
  - apply bind_inv in H as (u1 & s1 & Hup & H).
    apply (holds_node_Update _ _ _ HP) in Hup.
    apply bind_inv in H as (mx & s2 & Hmx & H). apply readonly_Max in Hmx as ->.
    apply bind_inv in H as (inc & s2 & Hinc & H).
    apply lift_int_add_inv in Hinc as [-> ->].
    apply bind_inv in H as (p & s2 & Hp & H). apply this_node_inv in Hp as [-> ->].
    apply bind_inv in H as (n & s2 & Hn & H). apply load_inv in Hn as [Hn ->].
    apply bind_inv in H as (v & s2 & Hv & H).
    apply lift_int_add_inv in Hv as [-> ->].
    exact (holds_count _ _ _ _ _ _ Hup Hn H).
  - apply bind_inv in H as (p & s2 & Hp & H). apply this_node_inv in Hp as [-> ->].
    apply bind_inv in H as (n & s2 & Hn & H). apply load_inv in Hn as [Hn ->].
    apply bind_inv in H as (v & s2 & Hv & H).
    apply lift_int_add_inv in Hv as [-> ->].
    exact (holds_count _ _ _ _ _ _ HP Hn H).
Qed.

Lemma holds_apply_rules : holds P apply_rules.
Proof.
  unfold apply_rules. apply holds_bind; [apply holds_CheckUnequal|].
  intros []; [apply holds_ret | apply holds_CheckConditions].
Qed.

Lemma holds_Stabilize rands : holds P (Stabilize rands).
Proof.
  induction rands as [|r rest IH]; simpl;
    (apply holds_bind; [apply holds_LegalConfig|]);
    intros []; simpl; try apply holds_ret.
  apply holds_bind; [apply holds_SelectNode|]. intros _.
  apply holds_bind; [apply holds_apply_rules|]. intros _.
  apply holds_bind; [exact IH|]. intros turns. apply holds_ret.
Qed.

Lemma holds_perform o : holds P (perform o).
Proof.
  destruct o as [r | r | | rands]; simpl.
  - apply holds_TransientFault.
  - apply holds_bind; [apply holds_SelectNode | intros; apply holds_apply_rules].
  - apply holds_bind; [apply holds_LegalConfig | intros; apply holds_ret].
  - apply holds_bind; [apply holds_Stabilize | intros; apply holds_ret].
Qed.

Lemma holds_perform_all os : holds P (perform_all os).
Proof.
  induction os as [|o rest IH]; simpl; [apply holds_ret|].
  apply holds_bind; [apply holds_perform | intros _; exact IH].
Qed.
End Holds.

(** *** Primary values are bits *)

Lemma bit_Update n : bit n -> bit (Update n).
Proof.
  intros _. unfold bit. rewrite Update_primary.
  destruct (primary n =? 0); [now right | now left].
Qed.

Lemma binary_bits s : binary s <-> Forall bit (member s).
Proof. unfold binary, primaries. now rewrite Forall_fmap. Qed.

Lemma link_primaries size i m : primary <$> link size i m = primary <$> m.
Proof.
  unfold link. destruct (i =? 0)%nat; [|destruct (i =? size - 1)%nat];
    (rewrite (list_fmap_alter primary _ id);
     [now apply list_alter_id | now apply Forall_forall]).
Qed.

Lemma links_primaries size idx m :
  primary <$> fold_left (fun m i => link size i m) idx m = primary <$> m.
Proof.
  revert m. induction idx as [|i rest IH]; intros m; simpl; [reflexivity|].
  now rewrite IH, link_primaries.
Qed.

Lemma System_new_primaries n s :
  System_new n = OK s -> primaries s = replicate (Z.to_nat n) 0.
Proof.
  unfold System_new. destruct (n <? 0); [discriminate|].
  intros H. injection H as <-. unfold primaries. simpl.
  now rewrite links_primaries, fmap_replicate.
Qed.

Lemma binary_System_new n s : System_new n = OK s -> binary s.
Proof.
  intros H. unfold binary. rewrite (System_new_primaries n s H).
  apply Forall_replicate. now left.
Qed.

Lemma binary_perform_all os s u s' :
  binary s -> perform_all os s = OK (u, s') -> binary s'.
Proof.
  rewrite !binary_bits.
  apply (holds_perform_all bit bit_Update (fun _ _ H => H)).
Qed.

(** X4. Along a run that starts at the constructor every primary value is
    0 or 1: the constructor writes 0, [Update] writes 0 or 1, and nothing
    else writes a primary value. *)
Theorem primaries_stay_binary
    (n : Z) (os : list operation) (s0 s : System) (u : unit) :
  System_new n = OK s0 ->
  perform_all os s0 = OK (u, s) ->
  binary s.
Proof.
  intros Hnew Hrun.
  exact (binary_perform_all os s0 u s (binary_System_new n s0 Hnew) Hrun).
Qed.

Lemma primaries_stay_binary_witness :
  System_new 4 = OK (line4 0 0 0 0 5 5 5 5 0)
  /\ perform_all [Fault 2; Fault 3; Turn 1; Fault 1; Turn 2; Legal; Loop [1; 2]]
       (line4 0 0 0 0 5 5 5 5 0)
     = OK (tt, line4 0 1 1 1 5 56 6 5 2)
  /\ binary (line4 0 1 1 1 5 56 6 5 2).
Proof.
  assert (System_new 4 = OK (line4 0 0 0 0 5 5 5 5 0)) as H0 by reflexivity.
  assert (perform_all
            [Fault 2; Fault 3; Turn 1; Fault 1; Turn 2; Legal; Loop [1; 2]]
            (line4 0 0 0 0 5 5 5 5 0)
          = OK (tt, line4 0 1 1 1 5 56 6 5 2)) as H1 by reflexivity.
  split; [exact H0|]. split; [exact H1|].
  exact (primaries_stay_binary 4 _ _ _ _ H0 H1).
Defined.

(** ** Faults undo faults *)

Lemma Update_Update n : bit n -> Update (Update n) = n.
Proof.
  destruct n as [p c l r]. unfold bit, Update. simpl.
  intros [-> | ->]; reflexivity.
Qed.

(** X5. A second fault on the node that a first fault hit restores it: on
    a system with binary primary values, two calls of [TransientFault]
    with draws that select the same node leave every node as it was. *)
Theorem two_faults_on_one_node_cancel (s : System) (r1 r2 : Z) :
  binary s ->
  0 <= r1 -> 0 <= r2 ->
  0 < SYSTEM_SIZE s ->
  Z.rem r1 (SYSTEM_SIZE s) = Z.rem r2 (SYSTEM_SIZE s) ->
  exists s',
    (TransientFault r1 >> TransientFault r2) s = OK (tt, s')
    /\ member s' = member s
    /\ node s' = Z.to_nat (Z.rem r1 (SYSTEM_SIZE s)).
Proof.
  intros Hb Hr1 Hr2 Hsize Heq.
  destruct (SelectNode_OK r1 s Hr1 Hsize) as [Hsel1 Hlt].
  set (i := Z.to_nat (Z.rem r1 (SYSTEM_SIZE s))) in *.
  destruct (lookup_lt_is_Some_2 (member s) i Hlt) as [n Hn].
  set (s1 := {| member := <[i := Update n]> (member s); node := i |}).
  assert (TransientFault r1 s = OK (tt, s1)) as H1.
  { unfold TransientFault. rewrite (bind_OK _ _ _ _ _ Hsel1).
    now rewrite (node_Update_OK _ n). }
  assert (SYSTEM_SIZE s1 = SYSTEM_SIZE s) as Hsize1.
  { unfold SYSTEM_SIZE, s1. simpl. now rewrite length_insert. }
  destruct (SelectNode_OK r2 s1 Hr2 ltac:(lia)) as [Hsel2 _].
  rewrite Hsize1, <- Heq in Hsel2. fold i in Hsel2.
  assert (member s1 !! i = Some (Update n)) as Hn1
    by (apply list_lookup_insert_eq; exact Hlt).
  eexists. split.
  { rewrite (bind_OK _ _ _ _ _ H1). unfold TransientFault.
    rewrite (bind_OK _ _ _ _ _ Hsel2).
    exact (node_Update_OK _ (Update n) Hn1). }
  simpl. split; [|reflexivity].
  rewrite list_insert_insert_eq, Update_Update.
  - now apply list_insert_id.
  - apply binary_bits in Hb. exact (Forall_lookup_1 _ _ _ _ Hb Hn).
Qed.

(** Draws 2 and 6 both select node 2 of four. *)
Lemma two_faults_on_one_node_cancel_witness :
  binary (line4 0 0 1 1 5 30 5 5 1)
  /\ exists s',
       (TransientFault 2 >> TransientFault 6) (line4 0 0 1 1 5 30 5 5 1)
       = OK (tt, s')
       /\ member s' = member (line4 0 0 1 1 5 30 5 5 1)
       /\ node s' = 2%nat.
Proof.
  assert (binary (line4 0 0 1 1 5 30 5 5 1)) as Hb.
  { unfold binary. change (primaries _) with [0; 0; 1; 1].
    repeat (apply Forall_cons; split; [lia|]). apply Forall_nil_2. }
  split; [exact Hb|].
  exact (two_faults_on_one_node_cancel _ 2 6 Hb ltac:(lia) ltac:(lia)
           eq_refl eq_refl).
Defined.

(** ** The rule engine on an interior node *)

Lemma with_node_secondaries_Update s n :
  member s !! node s = Some n ->
  secondaries (with_node s (Update n)) = secondaries s.
Proof. intros Hn. now apply insert_Update_secondaries. Qed.

(** X6. Rule (3) on a node with two neighbours: when both neighbours
    disagree with the node, the rule step flips its primary value and
    changes nothing else; with binary primary values the node then agrees
    with both neighbours. *)
Theorem interior_all_disagree_flips (s : System) (n l r : Node) :
  interior_of s n l r ->
  primary n <> primary l ->
  primary n <> primary r ->
  exists s',
    apply_rules s = OK (tt, s')
    /\ member s' !! node s = Some (Update n)
    /\ secondaries s' = secondaries s
    /\ node s' = node s
    /\ (forall j, j <> node s -> member s' !! j = member s !! j)
    /\ (bit n -> bit l -> bit r ->
        primary (Update n) = primary l /\ primary (Update n) = primary r).
Proof.
  intros Hi Hl Hr. pose proof (interior_self _ _ _ _ Hi) as Hn.
  exists (with_node s (Update n)). split.
  { apply apply_rules_settled. rewrite (CheckUnequal_interior s n l r Hi).
    apply Z.eqb_neq in Hl, Hr. now rewrite Hl, Hr. }
  split; [now apply with_node_lookup with n|].
  split; [now apply with_node_secondaries_Update|].
  split; [reflexivity|].
  split; [intros j Hj; now apply with_node_others|].
  unfold bit. rewrite Update_primary. intros Bn Bl Br.
  destruct (primary n =? 0) eqn:E;
    [apply Z.eqb_eq in E | apply Z.eqb_neq in E]; lia.
Qed.

(** Node 1 of [0,1,0]. *)
Lemma interior_all_disagree_flips_witness :
  interior_of (line3 0 1 0 5 5 5 1)
    (mkNode 1 5 (Some 0%nat) (Some 2%nat))
    (mkNode 0 5 None (Some 1%nat))
    (mkNode 0 5 (Some 1%nat) None)
  /\ exists s',
       apply_rules (line3 0 1 0 5 5 5 1) = OK (tt, s')
       /\ member s' !! 1%nat = Some (mkNode 0 5 (Some 0%nat) (Some 2%nat))
       /\ secondaries s' = [5; 5; 5].
Proof.
  assert (interior_of (line3 0 1 0 5 5 5 1)
            (mkNode 1 5 (Some 0%nat) (Some 2%nat))
            (mkNode 0 5 None (Some 1%nat))
            (mkNode 0 5 (Some 1%nat) None)) as Hi.
  { split; [reflexivity | exists 0%nat; now split | exists 2%nat; now split]. }
  split; [exact Hi|].
  destruct (interior_all_disagree_flips _ _ _ _ Hi
              ltac:(simpl; lia) ltac:(simpl; lia))
    as (s' & Hrun & Hcell & Hsec & _).
  exists s'. split; [exact Hrun|]. split; [exact Hcell | exact Hsec].
Defined.

(** X7. A node with two neighbours that both agree with it is left alone:
    the rule step changes nothing at all. *)
Theorem interior_all_agree_is_left_alone (s : System) (n l r : Node) :
  interior_of s n l r ->
  primary n = primary l ->
  primary n = primary r ->
  CheckUnequal s = OK (true, s) /\ apply_rules s = OK (tt, s).
Proof.
  intros Hi Hl Hr.
  assert (CheckUnequal s = OK (true, s)) as Hc.
  { rewrite (CheckUnequal_interior s n l r Hi).
    apply Z.eqb_eq in Hl, Hr. now rewrite Hl, Hr. }
  split; [exact Hc | now apply apply_rules_settled].
Qed.

(** Node 2 of [0,1,1,1]. *)
Lemma interior_all_agree_is_left_alone_witness :
  interior_of (line4 0 1 1 1 5 30 5 5 2)
    (mkNode 1 5 (Some 1%nat) (Some 3%nat))
    (mkNode 1 30 (Some 0%nat) (Some 2%nat))
    (mkNode 1 5 (Some 2%nat) None)
  /\ CheckUnequal (line4 0 1 1 1 5 30 5 5 2) = OK (true, line4 0 1 1 1 5 30 5 5 2)
  /\ apply_rules (line4 0 1 1 1 5 30 5 5 2) = OK (tt, line4 0 1 1 1 5 30 5 5 2).
Proof.
  assert (interior_of (line4 0 1 1 1 5 30 5 5 2)
            (mkNode 1 5 (Some 1%nat) (Some 3%nat))
            (mkNode 1 30 (Some 0%nat) (Some 2%nat))
            (mkNode 1 5 (Some 2%nat) None)) as Hi.
  { split; [reflexivity | exists 1%nat; now split | exists 3%nat; now split]. }
  split; [exact Hi|].
  exact (interior_all_agree_is_left_alone _ _ _ _ Hi eq_refl eq_refl).
Defined.

(** ** The rule engine writes one cell *)

Lemma readonly_confined {A} (m : Method A) : readonly m -> confined m.
Proof. intros H s a s' Hm. rewrite (H s a s' Hm). now repeat split. Qed.

Lemma confined_bind {A B} (m : Method A) (k : A -> Method B) :
  confined m -> (forall a, confined (k a)) -> confined (bind m k).
Proof.
  intros Hm Hk s b s' H. apply bind_inv in H as (a & s1 & H1 & H2).
  destruct (Hm s a s1 H1) as (Hn1 & Hl1 & Ho1).
  destruct (Hk a s1 b s' H2) as (Hn2 & Hl2 & Ho2).
  split; [congruence|]. split; [congruence|].
  intros j Hj. rewrite Ho2 by congruence. now apply Ho1.
Qed.

Lemma confined_if {A} (c : bool) (m1 m2 : Method A) :
  confined m1 -> confined m2 -> confined (if c then m1 else m2).
Proof. now destruct c. Qed.

Lemma confined_store_here s n u s' :
  store (node s) n s = OK (u, s') ->
  node s' = node s
  /\ length (member s') = length (member s)
  /\ forall j, j <> node s -> member s' !! j = member s !! j.
Proof.
  intros H. apply store_inv in H as (_ & _ & ->). simpl.
  split; [reflexivity|]. split; [apply length_insert|].
  intros j Hj. apply list_lookup_insert_ne. congruence.
Qed.

Lemma confined_node_Update : confined node_Update.
Proof.
  intros s u s' H. unfold node_Update in H.
  apply bind_inv in H as (p & s1 & H1 & H). apply this_node_inv in H1 as [-> ->].
  apply bind_inv in H as (n & s1 & H1 & H). apply load_inv in H1 as [_ ->].
  now apply confined_store_here in H.
Qed.

(** Close a goal on the written cell along the shape of the method. *)
Ltac stay_here :=
  repeat first
    [ apply readonly_confined; solve [read_only]
    | apply confined_node_Update
    | apply confined_bind; [| intro]
    | apply confined_if ].

Lemma confined_CheckUnequal : confined CheckUnequal.
Proof. unfold CheckUnequal. stay_here. Qed.

Lemma confined_count : confined
  (let* p := this_node in
   let* n := load p in
   let* v := lift (int_add (secondary n) 1) in
   store p (set_secondary v n)).
Proof.
  intros s u s' H.
  apply bind_inv in H as (p & s1 & H1 & H). apply this_node_inv in H1 as [-> ->].
  apply bind_inv in H as (n & s1 & H1 & H). apply load_inv in H1 as [_ ->].
  apply bind_inv in H as (v & s1 & H1 & H). apply lift_int_add_inv in H1 as [_ ->].
  now apply confined_store_here in H.
Qed.

Lemma confined_add inc : confined
  (let* p := this_node in
   let* n := load p in
   let* v := lift (int_add (secondary n) inc) in
   store p (set_secondary v n)).
Proof.
  intros s u s' H.
  apply bind_inv in H as (p & s1 & H1 & H). apply this_node_inv in H1 as [-> ->].
  apply bind_inv in H as (n & s1 & H1 & H). apply load_inv in H1 as [_ ->].
  apply bind_inv in H as (v & s1 & H1 & H). apply lift_int_add_inv in H1 as [_ ->].
  now apply confined_store_here in H.
Qed.

Lemma confined_CheckConditions : confined CheckConditions.
Proof.
  unfold CheckConditions.
  apply confined_bind; [apply readonly_confined, readonly_isLeader|].
  intros []; [|apply confined_count].
  apply confined_bind; [apply confined_node_Update|]. intros _.
  apply confined_bind; [apply readonly_confined, readonly_Max|]. intros mx.
  apply confined_bind; [apply readonly_confined, readonly_lift|]. intros inc.
  apply confined_add.
Qed.

(** X8. A rule step is local: whatever it decides, it writes no cell other
    than the one under the cursor, it does not move the cursor and it does
    not change the number of nodes. *)
Theorem apply_rules_writes_only_the_selected_node (s s' : System) (u : unit) :
  apply_rules s = OK (u, s') ->
  node s' = node s
  /\ length (member s') = length (member s)
  /\ forall j, j <> node s -> member s' !! j = member s !! j.
Proof.
  revert s u s'. change (confined apply_rules).
  unfold apply_rules. apply confined_bind; [apply confined_CheckUnequal|].
  intros []; [apply readonly_confined, readonly_ret | apply confined_CheckConditions].
Qed.

Lemma apply_rules_writes_only_the_selected_node_witness :
  apply_rules (line4 0 0 1 1 5 5 5 5 1) = OK (tt, line4 0 1 1 1 5 30 5 5 1)
  /\ node (line4 0 1 1 1 5 30 5 5 1) = node (line4 0 0 1 1 5 5 5 5 1)
  /\ length (member (line4 0 1 1 1 5 30 5 5 1))
     = length (member (line4 0 0 1 1 5 5 5 5 1))
  /\ forall j, j <> node (line4 0 0 1 1 5 5 5 5 1) ->
       member (line4 0 1 1 1 5 30 5 5 1) !! j
       = member (line4 0 0 1 1 5 5 5 5 1) !! j.
Proof.
  assert (apply_rules (line4 0 0 1 1 5 5 5 5 1)
          = OK (tt, line4 0 1 1 1 5 30 5 5 1)) as H by reflexivity.
  split; [exact H|].
  exact (apply_rules_writes_only_the_selected_node _ _ _ H).
Defined.

(** ** Leaders *)

Lemma isLeader_endpoint s n o :
  endpoint_of s n o ->
  isLeader s = OK (negb (secondary n <? secondary o), s).
Proof.
  intros [Hn [(Hl & ri & Hr & Hri) | (Hr & li & Hl & Hli)]];
    unfold isLeader; enter Hn; rewrite Hl; cbn [is_null].
  - rewrite Hr, (bind_OK _ _ _ _ _ (below_OK n ri o s Hri)).
    now destruct (secondary n <? secondary o).
  - rewrite Hr. cbn [is_null].
    rewrite (bind_OK _ _ _ _ _ (below_OK n li o s Hli)).
    now destruct (secondary n <? secondary o).
Qed.

(** X9. [isLeader], on a node with two neighbours, answers [true] exactly
    when neither neighbour has a greater secondary value, so a tie with a
    neighbour counts as leading; it changes nothing. *)
Theorem isLeader_iff_no_neighbour_is_greater (s : System) (n l r : Node) :
  interior_of s n l r ->
  exists b,
    isLeader s = OK (b, s)
    /\ (b = true <-> secondary l <= secondary n /\ secondary r <= secondary n)
    /\ (secondary n = secondary l -> secondary n = secondary r -> b = true).
Proof.
  intros Hi. eexists. split; [exact (isLeader_interior s n l r Hi)|].
  rewrite negb_true_iff, orb_false_iff, !Z.ltb_ge.
  split; [reflexivity | intros; lia].
Qed.

(** Node 1 of four new nodes ties with both neighbours. *)
Lemma isLeader_iff_no_neighbour_is_greater_witness :
  interior_of (line4 0 0 1 1 5 5 5 5 1)
    (mkNode 0 5 (Some 0%nat) (Some 2%nat))
    (mkNode 0 5 None (Some 1%nat))
    (mkNode 1 5 (Some 1%nat) (Some 3%nat))
  /\ isLeader (line4 0 0 1 1 5 5 5 5 1) = OK (true, line4 0 0 1 1 5 5 5 5 1).
Proof.
  assert (interior_of (line4 0 0 1 1 5 5 5 5 1)
            (mkNode 0 5 (Some 0%nat) (Some 2%nat))
            (mkNode 0 5 None (Some 1%nat))
            (mkNode 1 5 (Some 1%nat) (Some 3%nat))) as Hi.
  { split; [reflexivity | exists 0%nat; now split | exists 2%nat; now split]. }
  split; [exact Hi|].
  destruct (isLeader_iff_no_neighbour_is_greater _ _ _ _ Hi)
    as (b & Hrun & _ & Htie).
  rewrite Hrun. now rewrite (Htie eq_refl eq_refl).
Defined.

(** X10. [isLeader], on a node with exactly one neighbour, compares with
    that neighbour only: it answers [true] exactly when the neighbour's
    secondary value is not greater, and changes nothing. *)
Theorem isLeader_endpoint_compares_one_neighbour (s : System) (n o : Node) :
  endpoint_of s n o ->
  exists b,
    isLeader s = OK (b, s) /\ (b = true <-> secondary o <= secondary n).
Proof.
  intros He. eexists. split; [exact (isLeader_endpoint s n o He)|].
  now rewrite negb_true_iff, Z.ltb_ge.
Qed.

(** Node 3 of four, next to a node that has 30: not a leader. *)
Lemma isLeader_endpoint_compares_one_neighbour_witness :
  endpoint_of (line4 0 0 0 1 5 5 30 5 3)
    (mkNode 1 5 (Some 2%nat) None) (mkNode 0 30 (Some 1%nat) (Some 3%nat))
  /\ isLeader (line4 0 0 0 1 5 5 30 5 3) = OK (false, line4 0 0 0 1 5 5 30 5 3).
Proof.
  assert (endpoint_of (line4 0 0 0 1 5 5 30 5 3)
            (mkNode 1 5 (Some 2%nat) None)
            (mkNode 0 30 (Some 1%nat) (Some 3%nat))) as He.
  { split; [reflexivity|]. right. split; [reflexivity|]. exists 2%nat. now split. }
  split; [exact He|].
  destruct (isLeader_endpoint_compares_one_neighbour _ _ _ He) as (b & Hrun & Hiff).
  rewrite Hrun. destruct b; [|reflexivity].
  exfalso. pose proof (proj1 Hiff eq_refl) as H. simpl in H. lia.
Defined.

(** X11. [Max] returns the greater of the secondary values of the existing
    neighbours, the right one's only when it is strictly greater, and
    changes nothing: with two neighbours the result is at least both
    values and is one of them. *)
Theorem Max_is_the_greatest_neighbour (s : System) (n l r : Node) :
  interior_of s n l r ->
  exists mx,
    Max s = OK (mx, s)
    /\ secondary l <= mx /\ secondary r <= mx
    /\ (mx = secondary l \/ mx = secondary r).
Proof.
  intros Hi. exists (Z.max (secondary l) (secondary r)).
  split; [exact (Max_interior s n l r Hi)|]. lia.
Qed.

Lemma Max_is_the_greatest_neighbour_witness :
  interior_of (line4 0 0 1 1 5 30 6 5 2)
    (mkNode 1 6 (Some 1%nat) (Some 3%nat))
    (mkNode 0 30 (Some 0%nat) (Some 2%nat))
    (mkNode 1 5 (Some 2%nat) None)
  /\ Max (line4 0 0 1 1 5 30 6 5 2) = OK (30, line4 0 0 1 1 5 30 6 5 2).
Proof.
  assert (interior_of (line4 0 0 1 1 5 30 6 5 2)
            (mkNode 1 6 (Some 1%nat) (Some 3%nat))
            (mkNode 0 30 (Some 0%nat) (Some 2%nat))
            (mkNode 1 5 (Some 2%nat) None)) as Hi.
  { split; [reflexivity | exists 1%nat; now split | exists 3%nat; now split]. }
  split; [exact Hi|].
  destruct (Max_is_the_greatest_neighbour _ _ _ _ Hi) as (mx & Hrun & Hl & Hr & Hor).
  rewrite Hrun. simpl in Hl, Hr, Hor. do 2 f_equal. lia.
Defined.

(** The neighbourhood after a write under the cursor that keeps the
    pointers: each neighbour is the old one, or the written node itself. *)
Lemma interior_after_write s n l r n' :
  interior_of s n l r ->
  left n' = left n -> right n' = right n ->
  exists l' r',
    interior_of (with_node s n') n' l' r'
    /\ (l' = l \/ l' = n') /\ (r' = r \/ r' = n').
Proof.
  intros [Hn (li & Hl & Hli) (ri & Hr & Hri)] Hl' Hr'.
  assert (forall q o, member s !! q = Some o ->
            exists o', <[node s := n']> (member s) !! q = Some o'
                       /\ (o' = o \/ o' = n')) as Hq.
  { intros q o Ho. destruct (decide (node s = q)) as [<-|Hne].
    - exists n'. rewrite list_lookup_insert_eq
        by (now apply lookup_lt_Some in Hn). split; [reflexivity | now right].
    - exists o. rewrite list_lookup_insert_ne by exact Hne.
      split; [exact Ho | now left]. }
  destruct (Hq li l Hli) as (l' & Hlo & Hlor).
  destruct (Hq ri r Hri) as (r' & Hro & Hror).
  exists l', r'. split; [|now split].
  split; simpl.
  - apply list_lookup_insert_eq. now apply lookup_lt_Some in Hn.
  - exists li. split; [congruence | exact Hlo].
  - exists ri. split; [congruence | exact Hro].
Qed.

(** X12. A leader that has taken rule (2a) is still the leader afterwards:
    in the mixed case, when the local leader's secondary value is not
    negative and the sums fit in an [int], its new secondary value is at
    least [M] above each neighbour's, and [isLeader] answers [true] in the
    new state. *)
Theorem leader_keeps_the_lead (s : System) (n l r : Node) :
  interior_of s n l r ->
  mixed n l r ->
  local_leader n l r ->
  0 <= secondary n ->
  in_int (Z.max (secondary l) (secondary r) + M) ->
  in_int (secondary n + (Z.max (secondary l) (secondary r) + M)) ->
  exists s' v,
    apply_rules s = OK (tt, s')
    /\ secondaries s' !! node s = Some v
    /\ secondary l + M <= v /\ secondary r + M <= v
    /\ isLeader s' = OK (true, s').
Proof.
  intros Hi Hm Hlead Hpos Hinc Hsum.
  pose proof (interior_self _ _ _ _ Hi) as Hn.
  set (v := secondary n + (Z.max (secondary l) (secondary r) + M)).
  set (n' := set_secondary v (Update n)).
  exists (with_node s n'), v.
  split.
  { rewrite (apply_rules_unsettled _ _ (CheckUnequal_mixed s n l r Hi Hm)).
    exact (CheckConditions_leader s n l r Hi Hlead Hinc Hsum). }
  split.
  { unfold secondaries. now rewrite list_lookup_fmap, (with_node_lookup s n _ Hn). }
  unfold M in *. split; [lia|]. split; [lia|].
  destruct (interior_after_write s n l r n' Hi)
    as (l' & r' & Hi' & Hl' & Hr').
  { unfold n'. simpl. apply Update_left. }
  { unfold n'. simpl. apply Update_right. }
  rewrite (isLeader_interior _ _ _ _ Hi').
  assert (secondary n' = v) as Hv by reflexivity.
  assert ((secondary n' <? secondary l') || (secondary n' <? secondary r') = false)
    as ->; [|reflexivity].
  apply orb_false_iff. rewrite !Z.ltb_ge.
  destruct Hl' as [-> | ->], Hr' as [-> | ->]; rewrite ?Hv; lia.
Qed.

(** The leader of [0,0,1,1] has 30 against 5 and 5 after its turn. *)
Lemma leader_keeps_the_lead_witness :
  interior_of (line4 0 0 1 1 5 5 5 5 1)
    (mkNode 0 5 (Some 0%nat) (Some 2%nat))
    (mkNode 0 5 None (Some 1%nat))
    (mkNode 1 5 (Some 1%nat) (Some 3%nat))
  /\ exists s' v,
       apply_rules (line4 0 0 1 1 5 5 5 5 1) = OK (tt, s')
       /\ secondaries s' !! 1%nat = Some v
       /\ 5 + M <= v /\ 5 + M <= v
       /\ isLeader s' = OK (true, s').
Proof.
  assert (interior_of (line4 0 0 1 1 5 5 5 5 1)
            (mkNode 0 5 (Some 0%nat) (Some 2%nat))
            (mkNode 0 5 None (Some 1%nat))
            (mkNode 1 5 (Some 1%nat) (Some 3%nat))) as Hi.
  { split; [reflexivity | exists 0%nat; now split | exists 2%nat; now split]. }
  split; [exact Hi|].
  apply (leader_keeps_the_lead _ _ _ _ Hi).
  - left. simpl. split; [reflexivity | lia].
  - split; simpl; lia.
  - simpl. lia.
  - unfold in_int, INT_MIN, INT_MAX, M. simpl. lia.
  - unfold in_int, INT_MIN, INT_MAX, M. simpl. lia.
Defined.

(** ** The loop of [Stabilize] *)

Lemma legal_iff_first s :
  legal s <->
  (forall i v, primaries s !! i = Some v -> primaries s !! 0%nat = Some v).
Proof.
  split.
  - intros Hl i v Hv.
    destruct (lookup_lt_is_Some_2 (primaries s) 0) as [w Hw].
    { apply lookup_lt_Some in Hv. lia. }
    now rewrite Hw, (Hl _ _ _ _ Hv Hw).
  - intros Hf i j x y Hx Hy. apply Hf in Hx, Hy. congruence.
Qed.

Lemma LegalConfig_legal s :
  exists b, LegalConfig s = OK (b, s) /\ (b = true <-> legal s).
Proof.
  destruct (LegalConfig_verdict s) as (b & Hrun & Hiff).
  exists b. split; [exact Hrun|]. now rewrite legal_iff_first.
Qed.

Lemma legal_LegalConfig s : legal s -> LegalConfig s = OK (true, s).
Proof.
  intros Hl. destruct (LegalConfig_legal s) as (b & Hrun & Hiff).
  now rewrite Hrun, (proj2 Hiff Hl).
Qed.

(** How the loop can end. *)
Lemma Stabilize_inv rands : forall s out s',
  Stabilize rands s = OK (out, s') ->
  match out with
  | Some k => (k <= length rands)%nat /\ legal s'
  | None => ~ legal s'
  end.
Proof.
  induction rands as [|r rest IH]; intros s out s' H; simpl in H;
    apply bind_inv in H as (b & s1 & Hb & H);
    destruct (LegalConfig_legal s) as (b' & Hrun & Hiff);
    rewrite Hrun in Hb; injection Hb as <- <-;
    destruct b'; simpl in H.
  - injection H as <- <-. split; [simpl; lia | now apply Hiff].
  - injection H as <- <-. intros Hl. apply Hiff in Hl. discriminate.
  - injection H as <- <-. split; [simpl; lia | now apply Hiff].
  - apply bind_inv in H as (u1 & s1 & _ & H).
    apply bind_inv in H as (u2 & s2 & _ & H).
    apply bind_inv in H as (turns & s3 & Hrest & H).
    injection H as <- <-. specialize (IH _ _ _ Hrest).
    destruct turns as [k|]; simpl; [|exact IH].
    destruct IH as [Hk Hl]. split; [lia | exact Hl].
Qed.

(** X13. The loop of [Stabilize] ends only in a legal configuration: when
    it returns after [k] turns, [k] is at most the number of draws it was
    given and all primary values of the final state are equal; when the
    draws run out first, the final state is not legal. *)
Theorem Stabilize_ends_only_when_legal
    (rands : list Z) (s s' : System) (out : option nat) :
  Stabilize rands s = OK (out, s') ->
  match out with
  | Some k => (k <= length rands)%nat /\ legal s'
  | None => ~ legal s'
  end.
Proof. apply Stabilize_inv. Qed.

Lemma Stabilize_ends_only_when_legal_witness :
  Stabilize [1; 0; 3] (line4 0 0 1 1 5 5 5 5 3)
  = OK (Some 2%nat, line4 1 1 1 1 5 30 5 5 0)
  /\ (2 <= 3)%nat /\ legal (line4 1 1 1 1 5 30 5 5 0).
Proof.
  assert (Stabilize [1; 0; 3] (line4 0 0 1 1 5 5 5 5 3)
          = OK (Some 2%nat, line4 1 1 1 1 5 30 5 5 0)) as H by reflexivity.
  split; [exact H|].
  exact (Stabilize_ends_only_when_legal _ _ _ _ H).
Defined.

(** X14. [Stabilize] is idempotent: in the state that a finished loop
    leaves, a second call takes no turn and changes nothing, whatever
    [rand()] would return. *)
Theorem Stabilize_again_takes_no_turn
    (rands again : list Z) (s s' : System) (k : nat) :
  Stabilize rands s = OK (Some k, s') ->
  Stabilize again s' = OK (Some 0%nat, s').
Proof.
  intros H. apply Stabilize_inv in H as [_ Hl].
  apply Stabilize_legal. now apply legal_LegalConfig.
Qed.

Lemma Stabilize_again_takes_no_turn_witness :
  Stabilize [1; 0; 3] (line4 0 0 1 1 5 5 5 5 3)
  = OK (Some 2%nat, line4 1 1 1 1 5 30 5 5 0)
  /\ Stabilize [2; 2] (line4 1 1 1 1 5 30 5 5 0)
     = OK (Some 0%nat, line4 1 1 1 1 5 30 5 5 0).
Proof.
  assert (Stabilize [1; 0; 3] (line4 0 0 1 1 5 5 5 5 3)
          = OK (Some 2%nat, line4 1 1 1 1 5 30 5 5 0)) as H by reflexivity.
  split; [exact H|].
  exact (Stabilize_again_takes_no_turn _ [2; 2] _ _ _ H).
Defined.

(** ** Turns on a wired line *)

(** The neighbourhood of cell [i] of a wired line of two or more nodes,
    with the cursor on it: the first cell has the second as its only
    neighbour, the last cell the one before it, any other cell both. *)
Lemma wired_neighbourhood s i n :
  wired s ->
  (2 <= length (member s))%nat ->
  member s !! i = Some n ->
  let t := {| member := member s; node := i |} in
  (i = 0%nat /\ exists o, member s !! 1%nat = Some o /\ endpoint_of t n o)
  \/ (i = (length (member s) - 1)%nat
      /\ exists o, member s !! (i - 1)%nat = Some o /\ endpoint_of t n o)
  \/ ((0 < i)%nat
      /\ exists l r, member s !! (i - 1)%nat = Some l
                     /\ member s !! (i + 1)%nat = Some r
                     /\ interior_of t n l r).
Proof.
  intros Hw Hsize Hn t.
  pose proof (lookup_lt_Some _ _ _ Hn) as Hlt.
  destruct (Hw i n Hn) as [Hl Hr]. unfold wire in Hl, Hr.
  destruct (i =? 0)%nat eqn:E0; [apply Nat.eqb_eq in E0 | apply Nat.eqb_neq in E0].
  - left. split; [exact E0|]. subst i.
    destruct (lookup_lt_is_Some_2 (member s) 1) as [o Ho]; [lia|].
    exists o. split; [exact Ho|]. split; [exact Hn|].
    left. split; [exact Hl|]. now exists 1%nat.
  - destruct (i =? length (member s) - 1)%nat eqn:E1;
      [apply Nat.eqb_eq in E1 | apply Nat.eqb_neq in E1].
    + right. left. split; [exact E1|].
      destruct (lookup_lt_is_Some_2 (member s) (i - 1)) as [o Ho]; [lia|].
      exists o. split; [exact Ho|]. split; [exact Hn|].
      right. split; [exact Hr|]. now exists (i - 1)%nat.
    + right. right. split; [lia|].
      destruct (lookup_lt_is_Some_2 (member s) (i - 1)) as [l Hlo]; [lia|].
      destruct (lookup_lt_is_Some_2 (member s) (i + 1)) as [r Hro]; [lia|].
      exists l, r. split; [exact Hlo|]. split; [exact Hro|].
      split; [exact Hn | now exists (i - 1)%nat | now exists (i + 1)%nat].
Qed.

Lemma legal_lookup s i j x y :
  legal s -> member s !! i = Some x -> member s !! j = Some y ->
  primary x = primary y.
Proof.
  intros Hl Hx Hy. apply (Hl i j); unfold primaries;
    rewrite list_lookup_fmap; [now rewrite Hx | now rewrite Hy].
Qed.

(** X15. Closure: in a legal configuration of a wired line of two or more
    nodes, a turn of the loop on any node changes no node; only the cursor
    moves to the selected node, and the configuration is still legal. *)
Theorem Turn_keeps_a_legal_line (s : System) (r : Z) :
  wired s ->
  2 <= SYSTEM_SIZE s ->
  legal s ->
  0 <= r ->
  exists s',
    perform (Turn r) s = OK (tt, s')
    /\ member s' = member s
    /\ node s' = Z.to_nat (Z.rem r (SYSTEM_SIZE s))
    /\ legal s'.
Proof.
  intros Hw Hsize Hl Hr.
  destruct (SelectNode_OK r s Hr ltac:(lia)) as [Hsel Hlt].
  set (i := Z.to_nat (Z.rem r (SYSTEM_SIZE s))) in *.
  set (t := {| member := member s; node := i |}) in *.
  exists t. split; [|now repeat split].
  simpl. rewrite (bind_OK _ _ _ _ _ Hsel).
  destruct (lookup_lt_is_Some_2 (member s) i Hlt) as [n Hn].
  apply apply_rules_settled.
  destruct (wired_neighbourhood s i n Hw ltac:(unfold SYSTEM_SIZE in Hsize; lia) Hn)
    as [(_ & o & Ho & He) | [(_ & o & Ho & He) | (_ & l & o & Hlo & Ho & Hi)]].
  - rewrite (CheckUnequal_endpoint t n o He).
    pose proof (legal_lookup s _ _ _ _ Hl Hn Ho) as Heq.
    apply Z.eqb_eq in Heq. now rewrite Heq.
  - rewrite (CheckUnequal_endpoint t n o He).
    pose proof (legal_lookup s _ _ _ _ Hl Hn Ho) as Heq.
    apply Z.eqb_eq in Heq. now rewrite Heq.
  - rewrite (CheckUnequal_interior t n l o Hi).
    pose proof (legal_lookup s _ _ _ _ Hl Hn Hlo) as Heql.
    pose proof (legal_lookup s _ _ _ _ Hl Hn Ho) as Heqr.
    apply Z.eqb_eq in Heql, Heqr. now rewrite Heql, Heqr.
Qed.

Lemma wired_line4 p0 p1 p2 p3 c0 c1 c2 c3 k :
  wired (line4 p0 p1 p2 p3 c0 c1 c2 c3 k).
Proof.
  intros i n Hn. destruct i as [|[|[|[|i]]]]; simpl in Hn;
    try discriminate; injection Hn as <-; now split.
Qed.

Lemma wired_line2 p0 p1 c0 c1 k : wired (line2 p0 p1 c0 c1 k).
Proof.
  intros i n Hn. destruct i as [|[|i]]; simpl in Hn;
    try discriminate; injection Hn as <-; now split.
Qed.

Lemma legal_all_ones c0 c1 c2 c3 k : legal (line4 1 1 1 1 c0 c1 c2 c3 k).
Proof.
  intros i j x y Hx Hy.
  destruct i as [|[|[|[|i]]]]; simpl in Hx; try discriminate;
    destruct j as [|[|[|[|j]]]]; simpl in Hy; try discriminate; congruence.
Qed.

(** A turn on node 2 of the legal line [1,1,1,1]. *)
Lemma Turn_keeps_a_legal_line_witness :
  wired (line4 1 1 1 1 5 30 5 5 0)
  /\ legal (line4 1 1 1 1 5 30 5 5 0)
  /\ exists s',
       perform (Turn 6) (line4 1 1 1 1 5 30 5 5 0) = OK (tt, s')
       /\ member s' = member (line4 1 1 1 1 5 30 5 5 0)
       /\ node s' = 2%nat
       /\ legal s'.
Proof.
  split; [apply wired_line4|]. split; [apply legal_all_ones|].
  exact (Turn_keeps_a_legal_line _ 6 (wired_line4 _ _ _ _ _ _ _ _ _)
           ltac:(unfold SYSTEM_SIZE; simpl; lia)
           (legal_all_ones _ _ _ _ _) ltac:(lia)).
Defined.

(** A line of two cells is legal when its two cells agree. *)
Lemma legal_pair s i j x y :
  length (member s) = 2%nat -> i <> j ->
  member s !! i = Some x -> member s !! j = Some y ->
  primary x = primary y -> legal s.
Proof.
  intros Hlen Hij Hx Hy Heq a b u v Hu Hv.
  pose proof (lookup_lt_Some _ _ _ Hx) as Hi.
  pose proof (lookup_lt_Some _ _ _ Hy) as Hj.
  unfold primaries in Hu, Hv. rewrite list_lookup_fmap in Hu, Hv.
  destruct (member s !! a) as [na|] eqn:Ha; [|discriminate].
  destruct (member s !! b) as [nb|] eqn:Hb; [|discriminate].
  injection Hu as <-. injection Hv as <-.
  pose proof (lookup_lt_Some _ _ _ Ha) as Hla.
  pose proof (lookup_lt_Some _ _ _ Hb) as Hlb.
  assert (a = i \/ a = j) as [-> | ->] by lia;
    assert (b = i \/ b = j) as [-> | ->] by lia; congruence.
Qed.

(** One turn settles two nodes that disagree. *)
Lemma pair_turn s i j n o :
  length (member s) = 2%nat -> i <> j ->
  member s !! j = Some o ->
  endpoint_of {| member := member s; node := i |} n o ->
  bit n -> bit o ->
  primary n <> primary o ->
  exists t', apply_rules {| member := member s; node := i |} = OK (tt, t')
             /\ legal t'.
Proof.
  intros Hlen Hij Ho He Bn Bo Hne.
  set (t := {| member := member s; node := i |}) in *.
  pose proof (proj1 He) as Hn. simpl in Hn.
  exists (with_node t (Update n)). split.
  - apply apply_rules_settled. rewrite (CheckUnequal_endpoint t n o He).
    apply Z.eqb_neq in Hne. now rewrite Hne.
  - apply (legal_pair _ i j (Update n) o).
    + simpl. now rewrite length_insert.
    + exact Hij.
    + simpl. apply list_lookup_insert_eq. now apply lookup_lt_Some in Hn.
    + simpl. now rewrite list_lookup_insert_ne.
    + unfold bit in *. rewrite Update_primary.
      destruct (primary n =? 0) eqn:E;
        [apply Z.eqb_eq in E | apply Z.eqb_neq in E]; lia.
Qed.

(** X16. A line of two nodes converges in at most one turn: on a wired
    system of two nodes with binary primary values, [Stabilize] ends after
    0 or 1 turns in a legal configuration, whichever node the first draw
    selects. *)
Theorem two_nodes_converge_in_one_turn (s : System) (r : Z) (rest : list Z) :
  wired s ->
  SYSTEM_SIZE s = 2 ->
  binary s ->
  0 <= r ->
  exists k s',
    Stabilize (r :: rest) s = OK (Some k, s')
    /\ (k <= 1)%nat
    /\ legal s'.
Proof.
  intros Hw Hsize Hb Hr.
  assert (length (member s) = 2%nat) as Hlen by (unfold SYSTEM_SIZE in Hsize; lia).
  destruct (LegalConfig_legal s) as (b & Hrun & Hiff).
  destruct b.
  { exists 0%nat, s. split; [now apply Stabilize_legal|].
    split; [lia | now apply Hiff]. }
  assert (~ legal s) as Hnl by (intros Hl; apply Hiff in Hl; discriminate).
  destruct (SelectNode_OK r s Hr ltac:(lia)) as [Hsel Hlt].
  set (i := Z.to_nat (Z.rem r (SYSTEM_SIZE s))) in *.
  destruct (lookup_lt_is_Some_2 (member s) i Hlt) as [n Hn].
  apply binary_bits in Hb.
  assert (exists j o, i <> j /\ member s !! j = Some o
                      /\ endpoint_of {| member := member s; node := i |} n o)
    as (j & o & Hij & Ho & He).
  { destruct (wired_neighbourhood s i n Hw ltac:(lia) Hn)
      as [(Hi0 & o & Ho & He) | [(Hi1 & o & Ho & He) | (Hi2 & l & o & _ & Ho & _)]].
    - exists 1%nat, o. split; [lia|]. now split.
    - exists (i - 1)%nat, o. split; [lia|]. now split.
    - apply lookup_lt_Some in Ho. lia. }
  assert (primary n <> primary o) as Hne.
  { intros Heq. apply Hnl. exact (legal_pair s i j n o Hlen Hij Hn Ho Heq). }
  destruct (pair_turn s i j n o Hlen Hij Ho He
              (Forall_lookup_1 _ _ _ _ Hb Hn) (Forall_lookup_1 _ _ _ _ Hb Ho) Hne)
    as (t' & Hstep & Hl').
  exists 1%nat, t'. split; [|split; [lia | exact Hl']].
  simpl. rewrite (bind_OK _ _ _ _ _ Hrun). cbn [negb].
  rewrite (bind_OK _ _ _ _ _ Hsel), (bind_OK _ _ _ _ _ Hstep).
  rewrite (bind_OK _ _ _ _ _ (Stabilize_legal rest t' (legal_LegalConfig t' Hl'))).
  reflexivity.
Qed.

(** Two nodes [1,0]: the draw 7 selects node 1, which yields. *)
Lemma two_nodes_converge_in_one_turn_witness :
  wired (line2 1 0 5 5 0)
  /\ binary (line2 1 0 5 5 0)
  /\ exists k s',
       Stabilize [7; 4] (line2 1 0 5 5 0) = OK (Some k, s')
       /\ (k <= 1)%nat
       /\ legal s'.
Proof.
  assert (binary (line2 1 0 5 5 0)) as Hb.
  { unfold binary. change (primaries _) with [1; 0].
    repeat (apply Forall_cons; split; [lia|]). apply Forall_nil_2. }
  split; [apply wired_line2|]. split; [exact Hb|].
  exact (two_nodes_converge_in_one_turn _ 7 [4] (wired_line2 _ _ _ _ _)
           eq_refl Hb ltac:(lia)).
Defined.

(** ** [Print] *)

(** The right pointer of cell [i] of a wired line of two or more cells. *)
Lemma wired_right s i n :
  wired s -> (2 <= length (member s))%nat -> member s !! i = Some n ->
  right n = if (i =? length (member s) - 1)%nat then None else Some (S i).
Proof.
  intros Hw Hsize Hn. destruct (Hw i n Hn) as [_ Hr]. rewrite Hr.
  unfold wire. destruct (i =? 0)%nat eqn:E0.
  - apply Nat.eqb_eq in E0. subst i.
    destruct (0 =? length (member s) - 1)%nat eqn:E1;
      [apply Nat.eqb_eq in E1; lia | reflexivity].
  - destruct (i =? length (member s) - 1)%nat; simpl; [reflexivity|].
    f_equal. lia.
Qed.

Lemma Print_from_null fuel m : Print_from fuel None m = OK (Some []).
Proof. now destruct fuel. Qed.

(** The walk of [Print] from cell [i] of a wired line: it prints the
    primary values from [i] on when the fuel covers the rest of the line,
    and it never leaves the array. *)
Lemma Print_from_wired s :
  wired s -> (2 <= length (member s))%nat ->
  forall fuel i, (i < length (member s))%nat ->
    Print_from fuel (Some i) (member s)
    = if (length (member s) - i <=? fuel)%nat
      then OK (Some (drop i (primaries s)))
      else OK None.
Proof.
  intros Hw Hsize. induction fuel as [|fuel IH]; intros i Hi.
  - simpl. destruct (length (member s) - i <=? 0)%nat eqn:E; [|reflexivity].
    apply Nat.leb_le in E. lia.
  - destruct (lookup_lt_is_Some_2 (member s) i Hi) as [n Hn].
    cbn [Print_from]. rewrite Hn, (wired_right s i n Hw Hsize Hn).
    assert (primaries s !! i = Some (primary n)) as Hp
      by (unfold primaries; now rewrite list_lookup_fmap, Hn).
    rewrite (drop_S _ _ _ Hp).
    destruct (i =? length (member s) - 1)%nat eqn:E;
      [apply Nat.eqb_eq in E | apply Nat.eqb_neq in E].
    + rewrite Print_from_null.
      rewrite drop_ge by (unfold primaries; rewrite length_fmap; lia).
      destruct (length (member s) - i <=? S fuel)%nat eqn:E1; [reflexivity|].
      apply Nat.leb_gt in E1. lia.
    + rewrite IH by lia.
      destruct (length (member s) - S i <=? fuel)%nat eqn:E1;
        [apply Nat.leb_le in E1 | apply Nat.leb_gt in E1];
        (destruct (length (member s) - i <=? S fuel)%nat eqn:E2;
          [apply Nat.leb_le in E2 | apply Nat.leb_gt in E2]);
        try reflexivity; lia.
Qed.

Lemma Print_wired s fuel :
  wired s -> 2 <= SYSTEM_SIZE s ->
  Print fuel s
  = OK (if (length (member s) <=? fuel)%nat then Some (primaries s) else None,
        {| member := member s; node := 0%nat |}).
Proof.
  intros Hw Hsize. unfold SYSTEM_SIZE in Hsize. unfold Print.
  rewrite (Print_from_wired s Hw ltac:(lia) fuel 0 ltac:(lia)).
  rewrite Nat.sub_0_r, drop_0.
  now destruct (length (member s) <=? fuel)%nat.
Qed.

(** X17. [Print], on a wired line of two or more nodes, prints the primary
    values of all nodes in order, first to last, when it is given fuel for
    every node; it changes no node and leaves the cursor on node 0. *)
Theorem Print_prints_every_primary_in_order (s : System) (fuel : nat) :
  wired s ->
  2 <= SYSTEM_SIZE s ->
  (length (member s) <= fuel)%nat ->
  Print fuel s = OK (Some (primaries s), {| member := member s; node := 0%nat |}).
Proof.
  intros Hw Hsize Hfuel. rewrite (Print_wired s fuel Hw Hsize).
  apply Nat.leb_le in Hfuel. now rewrite Hfuel.
Qed.

Lemma Print_prints_every_primary_in_order_witness :
  wired (line4 0 1 1 1 5 56 6 5 2)
  /\ Print 4 (line4 0 1 1 1 5 56 6 5 2)
     = OK (Some [0; 1; 1; 1], line4 0 1 1 1 5 56 6 5 0).
Proof.
  split; [apply wired_line4|].
  exact (Print_prints_every_primary_in_order _ 4 (wired_line4 _ _ _ _ _ _ _ _ _)
           ltac:(unfold SYSTEM_SIZE; simpl; lia) ltac:(simpl; lia)).
Defined.

Lemma Print_small s fuel :
  wired s -> SYSTEM_SIZE s <= 1 -> (2 <= fuel)%nat -> Print fuel s = Err OutOfBounds.
Proof.
  intros Hw Hsize Hfuel. unfold SYSTEM_SIZE in Hsize. unfold Print.
  destruct fuel as [|[|fuel]]; [lia | lia |].
  destruct (member s) as [|n [|? ?]] eqn:Hm; simpl in Hsize; [reflexivity | | lia].
  destruct (Hw 0%nat n) as [_ Hr]; [now rewrite Hm|].
  rewrite Hm in Hr. simpl in Hr. simpl. rewrite Hr. reflexivity.
Qed.

(** X18. [Print] cannot print a system of fewer than two nodes: on the
    empty array its first read is outside the array, and on a single node
    wired by the constructor it follows the right pointer past the array.
    Both are reads out of bounds, as soon as the fuel allows two steps. *)
Theorem Print_reads_out_of_bounds_below_two_nodes (s : System) (fuel : nat) :
  wired s ->
  SYSTEM_SIZE s <= 1 ->
  (2 <= fuel)%nat ->
  Print fuel s = Err OutOfBounds.
Proof. apply Print_small. Qed.

Lemma Print_reads_out_of_bounds_below_two_nodes_witness :
  System_new 1 = OK {| member := [mkNode 0 5 None (Some 1%nat)]; node := 0 |}
  /\ Print 2 {| member := [mkNode 0 5 None (Some 1%nat)]; node := 0 |}
     = Err OutOfBounds.
Proof.
  assert (System_new 1
          = OK {| member := [mkNode 0 5 None (Some 1%nat)]; node := 0 |})
    as H by reflexivity.
  split; [exact H|].
  exact (Print_reads_out_of_bounds_below_two_nodes _ 2
           (wired_System_new 1 _ H) ltac:(unfold SYSTEM_SIZE; simpl; lia)
           ltac:(lia)).
Defined.

(** ** [main] *)


(** Faults and loops keep the wiring, the size and the bits. *)
Lemma steady_TransientFault r s u s' :
  wired s -> binary s -> TransientFault r s = OK (u, s') ->
  wired s' /\ length (member s') = length (member s) /\ binary s'.
Proof.
  intros Hw Hb H.
  pose proof (keeps_TransientFault left Update_left r s u s' H) as Hl.
  pose proof (keeps_TransientFault right Update_right r s u s' H) as Hr.
  split; [exact (wired_kept s s' Hl Hr Hw)|]. split.
  - rewrite <- (length_fmap left (member s')), Hl. apply length_fmap.
  - apply binary_bits. apply binary_bits in Hb.
    exact (holds_TransientFault bit bit_Update r s u s' Hb H).
Qed.

Lemma steady_Stabilize rands s out s' :
  wired s -> binary s -> Stabilize rands s = OK (out, s') ->
  wired s' /\ length (member s') = length (member s) /\ binary s'.
Proof.
  intros Hw Hb H.
  pose proof (keeps_Stabilize left Update_left (fun _ _ => eq_refl) rands s out s' H)
    as Hl.
  pose proof (keeps_Stabilize right Update_right (fun _ _ => eq_refl) rands s out s' H)
    as Hr.
  split; [exact (wired_kept s s' Hl Hr Hw)|]. split.
  - rewrite <- (length_fmap left (member s')), Hl. apply length_fmap.
  - apply binary_bits. apply binary_bits in Hb.
    exact (holds_Stabilize bit bit_Update (fun _ _ H => H) rands s out s' Hb H).
Qed.

(** A line that [Print] returns is the list of the primary values. *)
Lemma Print_inv s fuel l s' :
  wired s -> 2 <= SYSTEM_SIZE s -> Print fuel s = OK (Some l, s') ->
  l = primaries s /\ member s' = member s.
Proof.
  intros Hw Hsize H. rewrite (Print_wired s fuel Hw Hsize) in H.
  destruct (length (member s) <=? fuel)%nat; [|discriminate].
  injection H as <- <-. now split.
Qed.

Lemma faults_loop_inv fuel draws : forall s lines s',
  wired s -> (2 <= length (member s))%nat -> binary s ->
  faults_loop fuel draws s = OK (Some lines, s') ->
  wired s' /\ length (member s') = length (member s) /\ binary s'
  /\ length lines = length draws
  /\ Forall (fun l => length l = length (member s)
                      /\ Forall (fun v => v = 0 \/ v = 1) l) lines.
Proof.
  induction draws as [|r rest IH]; intros s lines s' Hw Hsize Hb H; simpl in H.
  - injection H as <- <-. split; [exact Hw|]. split; [reflexivity|].
    split; [exact Hb|]. split; [reflexivity | apply Forall_nil_2].
  - apply bind_inv in H as (u & s1 & Hf & H).
    destruct (steady_TransientFault r s u s1 Hw Hb Hf) as (Hw1 & Hlen1 & Hb1).
    apply bind_inv in H as (line & s2 & Hp & H).
    destruct line as [l|]; [|discriminate].
    destruct (Print_inv s1 fuel l s2 Hw1 ltac:(unfold SYSTEM_SIZE; lia) Hp)
      as [-> Hm2].
    apply bind_inv in H as (more & s3 & Hrest & H).
    destruct more as [ls|]; [|discriminate]. injection H as <- <-.
    assert (wired s2) as Hw2
      by (intros i n Hn; rewrite Hm2 in *; now apply Hw1).
    assert (binary s2) as Hb2 by (unfold binary, primaries; now rewrite Hm2).
    destruct (IH s2 ls s3 Hw2 ltac:(rewrite Hm2; lia) Hb2 Hrest)
      as (Hw' & Hlen' & Hb' & Hn & Hall).
    split; [exact Hw'|]. split; [rewrite Hlen', Hm2; exact Hlen1|].
    split; [exact Hb'|]. split; [simpl; now rewrite Hn|].
    apply Forall_cons. split.
    + split; [unfold primaries; rewrite length_fmap; exact Hlen1 | exact Hb1].
    + rewrite Hm2, Hlen1 in Hall. exact Hall.
Qed.



(** X20. [main] without faults on two or more nodes: the new system is
    already legal, so the loop takes no turn, whatever the draws, and the
    line printed at the end is a row of zeros, one per node. *)
Theorem main_without_faults_prints_zeros
    (fuel : nat) (size : Z) (draws : list Z) :
  2 <= size ->
  (Z.to_nat size <= fuel)%nat ->
  main fuel size [] draws = OK (Some ([], 0%nat, replicate (Z.to_nat size) 0)).
Proof.
  intros Hsize Hfuel. unfold main.
  destruct (System_new_OK size ltac:(lia)) as (s0 & Hnew & Hsz & _).
  pose proof (wired_System_new size s0 Hnew) as Hw.
  pose proof (System_new_primaries size s0 Hnew) as Hp.
  rewrite Hnew. cbv zeta. simpl faults_loop.
  rewrite (bind_OK _ _ _ _ _ (eq_refl : ret _ s0 = OK (_, s0))).
  assert (legal s0) as Hl.
  { intros i j x y Hx Hy. rewrite Hp in Hx, Hy.
    apply lookup_replicate in Hx as [-> _]. now apply lookup_replicate in Hy as [-> _]. }
  rewrite (bind_OK _ _ _ _ _ (Stabilize_legal draws s0 (legal_LegalConfig s0 Hl))).
  assert (length (member s0) <= fuel)%nat as Hf
    by (unfold SYSTEM_SIZE in Hsz; lia).
  apply Nat.leb_le in Hf.
  rewrite (bind_OK _ _ _ _ _ (Print_wired s0 fuel Hw ltac:(lia))).
  now rewrite Hf, Hp.
Qed.

Lemma main_without_faults_prints_zeros_witness :
  main 5 3 [] [1; 2] = OK (Some ([], 0%nat, [0; 0; 0])).
Proof.
  exact (main_without_faults_prints_zeros 5 3 [1; 2] ltac:(lia) ltac:(simpl; lia)).
Defined.

(** X21. What a completed run of [main] has printed, for a size of two or
    more: one line per fault and a last line, each with one bit per node;
    the last line is uniform, all its entries are equal; and the loop took
    no more turns than there were draws. *)
Theorem main_prints_a_uniform_last_line
    (fuel : nat) (size : Z) (fault_draws draws : list Z)
    (lines : list (list Z)) (k : nat) (last : list Z) :
  2 <= size ->
  main fuel size fault_draws draws = OK (Some (lines, k, last)) ->
  length lines = length fault_draws
  /\ Forall (fun l => length l = Z.to_nat size
                      /\ Forall (fun v => v = 0 \/ v = 1) l) lines
  /\ (k <= length draws)%nat
  /\ length last = Z.to_nat size
  /\ Forall (fun v => v = 0 \/ v = 1) last
  /\ (forall i j x y, last !! i = Some x -> last !! j = Some y -> x = y).
Proof.
  intros Hsize H. unfold main in H.
  destruct (System_new_OK size ltac:(lia)) as (s0 & Hnew & Hsz & _).
  pose proof (wired_System_new size s0 Hnew) as Hw.
  pose proof (binary_System_new size s0 Hnew) as Hb.
  assert (length (member s0) = Z.to_nat size) as Hlen
    by (unfold SYSTEM_SIZE in Hsz; lia).
  rewrite Hnew in H. cbv zeta in H.
  match type of H with
  | match ?run s0 with _ => _ end = _ => destruct (run s0) as [[out sf]|e] eqn:Hrun
  end; [|discriminate].
  injection H as ->.
  apply bind_inv in Hrun as (status & s1 & Hfaults & Hrun).
  destruct status as [ls|]; [|discriminate].
  destruct (faults_loop_inv fuel fault_draws s0 ls s1 Hw ltac:(lia) Hb Hfaults)
    as (Hw1 & Hlen1 & Hb1 & Hn & Hall).
  apply bind_inv in Hrun as (turns & s2 & Hloop & Hrun).
  destruct turns as [k'|]; [|discriminate].
  destruct (steady_Stabilize draws s1 _ s2 Hw1 Hb1 Hloop) as (Hw2 & Hlen2 & Hb2).
  apply Stabilize_inv in Hloop as [Hk Hl].
  apply bind_inv in Hrun as (line & s3 & Hp & Hrun).
  destruct line as [l|]; [|discriminate].
  destruct (Print_inv s2 fuel l s3 Hw2 ltac:(unfold SYSTEM_SIZE; lia) Hp)
    as [-> _].
  injection Hrun as <- <- <-.
  split; [exact Hn|]. split; [now rewrite <- Hlen|]. split; [exact Hk|].
  split; [unfold primaries; rewrite length_fmap; lia|].
  split; [exact Hb2 | exact Hl].
Qed.

(** Four nodes, faults on nodes 2 and 3, then turns on nodes 1 and 0. *)
Lemma main_prints_a_uniform_last_line_witness :
  main 4 4 [2; 3] [1; 0; 3] = OK (Some ([[0; 0; 1; 0]; [0; 0; 1; 1]], 2%nat, [1; 1; 1; 1]))
  /\ length [[0; 0; 1; 0]; [0; 0; 1; 1]] = length [2; 3]
  /\ (2 <= length [1; 0; 3])%nat
  /\ length [1; 1; 1; 1] = Z.to_nat 4.
Proof.
  assert (main 4 4 [2; 3] [1; 0; 3]
          = OK (Some ([[0; 0; 1; 0]; [0; 0; 1; 1]], 2%nat, [1; 1; 1; 1]))) as H
    by reflexivity.
  split; [exact H|].
  destruct (main_prints_a_uniform_last_line 4 4 _ _ _ _ _ ltac:(lia) H)
    as (H1 & _ & H3 & H4 & _).
  split; [exact H1|]. split; [exact H3 | exact H4].
Defined.

(** ** The scheduler *)

(** X22. [SelectNode], on a system with at least one node and for a draw
    that is not negative, puts the cursor on cell [rand() % SYSTEM_SIZE],
    which is a cell of the array, and touches no node; on an empty system
    it divides by zero. *)
Theorem SelectNode_picks_a_cell_of_the_array (s : System) (r : Z) :
  0 <= r ->
  if SYSTEM_SIZE s =? 0 then SelectNode r s = Err DivByZero
  else exists s',
         SelectNode r s = OK (tt, s')
         /\ member s' = member s
         /\ Z.of_nat (node s') = Z.rem r (SYSTEM_SIZE s)
         /\ is_Some (member s !! node s').
Proof.
  intros Hr. destruct (SYSTEM_SIZE s =? 0) eqn:E.
  - unfold SelectNode. now rewrite E.
  - apply Z.eqb_neq in E.
    assert (0 < SYSTEM_SIZE s) as Hpos by (unfold SYSTEM_SIZE in *; lia).
    destruct (SelectNode_OK r s Hr Hpos) as [Hsel Hlt].
    eexists. split; [exact Hsel|]. simpl. split; [reflexivity|].
    split; [|now apply lookup_lt_is_Some_2].
    pose proof (Z.rem_bound_pos r (SYSTEM_SIZE s) Hr Hpos). lia.
Qed.

Lemma SelectNode_picks_a_cell_of_the_array_witness :
  exists s',
    SelectNode 11 (line4 0 0 1 1 5 5 5 5 0) = OK (tt, s')
    /\ member s' = member (line4 0 0 1 1 5 5 5 5 0)
    /\ Z.of_nat (node s') = 3
    /\ is_Some (member (line4 0 0 1 1 5 5 5 5 0) !! node s').
Proof.
  exact (SelectNode_picks_a_cell_of_the_array (line4 0 0 1 1 5 5 5 5 0) 11
           ltac:(lia)).
Defined.

(** ** One fault, one turn *)

Lemma undo_Update (m : list Node) i n :
  m !! i = Some n -> bit n ->
  <[i := Update (Update n)]> (<[i := Update n]> m) = m.
Proof.
  intros Hn Bn. rewrite list_insert_insert_eq, (Update_Update n Bn).
  now apply list_insert_id.
Qed.

(** X23. Containment of one fault: on a legal wired line of two or more
    nodes with binary primary values, a fault on a node followed by a turn
    of the loop on the same node gives back every node as it was, so the
    configuration is legal again. *)
Theorem a_turn_on_the_faulty_node_repairs_it (s : System) (r1 r2 : Z) :
  wired s ->
  2 <= SYSTEM_SIZE s ->
  legal s ->
  binary s ->
  0 <= r1 -> 0 <= r2 ->
  Z.rem r1 (SYSTEM_SIZE s) = Z.rem r2 (SYSTEM_SIZE s) ->
  exists s',
    (TransientFault r1 >> SelectNode r2 >> apply_rules) s = OK (tt, s')
    /\ member s' = member s
    /\ legal s'.
Proof.
  intros Hw Hsize Hl Hb Hr1 Hr2 Heq.
  destruct (SelectNode_OK r1 s Hr1 ltac:(lia)) as [Hsel1 Hlt].
  set (i := Z.to_nat (Z.rem r1 (SYSTEM_SIZE s))) in *.
  destruct (lookup_lt_is_Some_2 (member s) i Hlt) as [n Hn].
  set (s1 := {| member := <[i := Update n]> (member s); node := i |}).
  assert (TransientFault r1 s = OK (tt, s1)) as H1.
  { unfold TransientFault. rewrite (bind_OK _ _ _ _ _ Hsel1).
    now rewrite (node_Update_OK _ n). }
  destruct (steady_TransientFault r1 s tt s1 Hw Hb H1) as (Hw1 & Hlen1 & _).
  assert (SYSTEM_SIZE s1 = SYSTEM_SIZE s) as Hsize1
    by (unfold SYSTEM_SIZE; now rewrite Hlen1).
  destruct (SelectNode_OK r2 s1 Hr2 ltac:(lia)) as [Hsel2 _].
  rewrite Hsize1, <- Heq in Hsel2. fold i in Hsel2.
  change {| member := member s1; node := i |} with s1 in Hsel2.
  assert (member s1 !! i = Some (Update n)) as Hn1
    by (apply list_lookup_insert_eq; exact Hlt).
  assert (forall j o, j <> i -> member s1 !! j = Some o ->
            primary (Update n) <> primary o) as Hdiff.
  { intros j o Hj Ho. simpl in Ho. rewrite list_lookup_insert_ne in Ho by congruence.
    rewrite <- (legal_lookup s _ _ _ _ Hl Hn Ho). apply Update_flips. }
  apply binary_bits in Hb. pose proof (Forall_lookup_1 _ _ _ _ Hb Hn) as Bn.
  assert (apply_rules s1 = OK (tt, with_node s1 (Update (Update n)))) as H2.
  { apply apply_rules_settled.
    destruct (wired_neighbourhood s1 i (Update n) Hw1
                ltac:(unfold SYSTEM_SIZE in *; lia) Hn1)
      as [(Hi0 & o & Ho & He) | [(Hi1 & o & Ho & He) | (Hi2 & l & o & Hlo & Ho & Hi)]].
    - change (endpoint_of s1 (Update n) o) in He.
      rewrite (CheckUnequal_endpoint _ _ _ He).
      pose proof (Hdiff 1%nat o ltac:(lia) Ho) as Hne.
      apply Z.eqb_neq in Hne. now rewrite Hne.
    - change (endpoint_of s1 (Update n) o) in He.
      rewrite (CheckUnequal_endpoint _ _ _ He).
      assert (i - 1 <> i)%nat as Hj.
      { rewrite Hlen1 in Hi1. unfold SYSTEM_SIZE in Hsize. lia. }
      pose proof (Hdiff _ o Hj Ho) as Hne.
      apply Z.eqb_neq in Hne. now rewrite Hne.
    - change (interior_of s1 (Update n) l o) in Hi.
      rewrite (CheckUnequal_interior _ _ _ _ Hi).
      pose proof (Hdiff (i - 1)%nat l ltac:(lia) Hlo) as Hnl.
      pose proof (Hdiff (i + 1)%nat o ltac:(lia) Ho) as Hno.
      apply Z.eqb_neq in Hnl, Hno. now rewrite Hnl, Hno. }
  assert (member (with_node s1 (Update (Update n))) = member s) as Hm
    by (simpl; now apply undo_Update).
  exists (with_node s1 (Update (Update n))).
  split.
  { rewrite (bind_OK _ _ _ _ _ H1), (bind_OK _ _ _ _ _ Hsel2). exact H2. }
  split; [exact Hm|].
  intros a b x y. unfold primaries. rewrite Hm. apply Hl.
Qed.

(** A fault on node 2 of [1,1,1,1], then a turn on node 2. *)
Lemma a_turn_on_the_faulty_node_repairs_it_witness :
  wired (line4 1 1 1 1 5 30 5 5 0)
  /\ legal (line4 1 1 1 1 5 30 5 5 0)
  /\ binary (line4 1 1 1 1 5 30 5 5 0)
  /\ exists s',
       (TransientFault 2 >> SelectNode 6 >> apply_rules) (line4 1 1 1 1 5 30 5 5 0)
       = OK (tt, s')
       /\ member s' = member (line4 1 1 1 1 5 30 5 5 0)
       /\ legal s'.
Proof.
  assert (binary (line4 1 1 1 1 5 30 5 5 0)) as Hb.
  { unfold binary. change (primaries _) with [1; 1; 1; 1].
    repeat (apply Forall_cons; split; [lia|]). apply Forall_nil_2. }
  split; [apply wired_line4|]. split; [apply legal_all_ones|]. split; [exact Hb|].
  exact (a_turn_on_the_faulty_node_repairs_it _ 2 6
           (wired_line4 _ _ _ _ _ _ _ _ _)
           ltac:(unfold SYSTEM_SIZE; simpl; lia)
           (legal_all_ones _ _ _ _ _) Hb ltac:(lia) ltac:(lia) eq_refl).
Defined.

(** ** When the leader test runs *)

(** Run the reads of a method on known cells until it stops. *)
Ltac stuck_on Hn Hl Hr :=
  repeat (cbv [and_then differs agrees node_Update load_ptr load store
               this_node bind ret fail];
          rewrite ?Hn, ?Hl, ?Hr; cbv beta iota; cbn [negb]).

(** X24. [CheckUnequal] answers [false], and so hands the node over to
    [CheckConditions], only for a node with two neighbours of which
    exactly one agrees with it; and then it has changed nothing. *)
Theorem CheckConditions_runs_only_in_the_mixed_case (s s' : System) :
  CheckUnequal s = OK (false, s') ->
  s' = s /\ exists n l r, interior_of s n l r /\ mixed n l r.
Proof.
  intros H.
  destruct (member s !! node s) as [n|] eqn:Hn.
  2:{ unfold CheckUnequal in H.
      rewrite (bind_OK _ _ _ _ _ (this_node_OK _)) in H.
      unfold bind, load in H. now rewrite Hn in H. }
  destruct (left n) as [li|] eqn:Hl, (right n) as [ri|] eqn:Hr.
  - destruct (member s !! li) as [l|] eqn:Hli, (member s !! ri) as [r|] eqn:Hri.
    + assert (interior_of s n l r) as Hi
        by (split; [exact Hn | now exists li | now exists ri]).
      rewrite (CheckUnequal_interior s n l r Hi) in H.
      destruct (primary n =? primary l) eqn:El, (primary n =? primary r) eqn:Er;
        simpl in H; try discriminate; injection H as <-;
        (split; [reflexivity|]); exists n, l, r; (split; [exact Hi|]);
        [apply Z.eqb_eq in El; apply Z.eqb_neq in Er; now left
        |apply Z.eqb_neq in El; apply Z.eqb_eq in Er; now right].
    + exfalso. revert H. unfold CheckUnequal. enter Hn.
      rewrite Hl, Hr. cbn [is_null negb andb]. stuck_on Hn Hli Hri.
      destruct (primary n =? primary l) eqn:E; stuck_on Hn Hli Hri;
        rewrite ?E; stuck_on Hn Hli Hri; discriminate.
    + exfalso. revert H. unfold CheckUnequal. enter Hn.
      rewrite Hl, Hr. cbn [is_null negb andb]. stuck_on Hn Hli Hri.
      discriminate.
    + exfalso. revert H. unfold CheckUnequal. enter Hn.
      rewrite Hl, Hr. cbn [is_null negb andb]. stuck_on Hn Hli Hri.
      discriminate.
  - exfalso. revert H. unfold CheckUnequal. enter Hn.
    rewrite Hl, Hr. cbn [is_null negb andb].
    destruct (member s !! li) as [l|] eqn:Hli; stuck_on Hn Hli Hli;
      [|discriminate].
    destruct (primary n =? primary l) eqn:E; stuck_on Hn Hli Hli;
      rewrite ?E; stuck_on Hn Hli Hli; discriminate.
  - exfalso. revert H. unfold CheckUnequal. enter Hn.
    rewrite Hl, Hr. cbn [is_null negb andb].
    destruct (member s !! ri) as [r|] eqn:Hri; stuck_on Hn Hri Hri;
      [|discriminate].
    destruct (primary n =? primary r) eqn:E; stuck_on Hn Hri Hri;
      rewrite ?E; stuck_on Hn Hri Hri; discriminate.
  - exfalso. revert H. unfold CheckUnequal. enter Hn.
    rewrite Hl, Hr. discriminate.
Qed.

(** Node 1 of [0,0,1,1]. *)
Lemma CheckConditions_runs_only_in_the_mixed_case_witness :
  CheckUnequal (line4 0 0 1 1 5 5 5 5 1) = OK (false, line4 0 0 1 1 5 5 5 5 1)
  /\ exists n l r,
       interior_of (line4 0 0 1 1 5 5 5 5 1) n l r /\ mixed n l r.
Proof.
  assert (CheckUnequal (line4 0 0 1 1 5 5 5 5 1)
          = OK (false, line4 0 0 1 1 5 5 5 5 1)) as H by reflexivity.
  split; [exact H|].
  exact (proj2 (CheckConditions_runs_only_in_the_mixed_case _ _ H)).
Defined.
